(** * AI Code Rule Checker: the browser front end (static/app.js)

    A shallow embedding of the front-end script and the properties of its
    three cores: the message segmenter inside [appendBubble], the check
    result presentation [renderCheckResult], and the session-scoped request
    layer ([getSessionId], [postJson], [sendChat], [runCheck]).

    - JavaScript strings are sequences of UTF-16 code units; they are
      modelled as [list N], one number per code unit.  The built-ins the
      script calls on them ([trim], [split], [join], [slice], [replace] with
      the regular expressions of the script) are written out on that
      representation.
    - The page is a record of the element state the script reads and
      writes, of [localStorage], and of the requests sent so far; every
      function of the script is a function on pages.
    - An [async] function is cut at its [await]: the part that runs when
      the user acts, up to and including the [fetch], and the part that runs
      when the request has settled.
    - The random draw, the clock and the outcome of a request are arguments.
      What the engine decides (lower-casing outside ASCII, JSON, the locale's
      time format, the wording of its own [TypeError]s) is a parameter of
      the development.
    - A decoded JSON value is a tree; a number in it is carried as the text
      [String()] prints for it.  A conversion to text can throw, for an
      object with a [toString] entry of its own, and is modelled as partial.
    - Left out: the scroll position of the chat log, and failures of
      [localStorage] itself. *)

From Stdlib Require Import String Ascii.
From Stdlib Require Import List NArith ZArith Bool Lia DecimalString.
From Stdlib Require Import DecimalPos DecimalZ.
Import ListNotations.

Set Warnings "-register-all".

(** ** JavaScript strings *)

Definition jsstring := list N.

(** An ASCII literal of the script as a sequence of code units. *)
Definition lit (s : string) : jsstring :=
  map N_of_ascii (list_ascii_of_string s).
Arguments lit s%_string.

Definition str_eqb (a b : jsstring) : bool :=
  if list_eq_dec N.eq_dec a b then true else false.

(** White space and line terminators, as [String.prototype.trim] sees them. *)
Definition is_ws (c : N) : bool :=
  existsb (N.eqb c)
    [0x9; 0xA; 0xB; 0xC; 0xD; 0x20; 0xA0; 0x1680;
     0x2000; 0x2001; 0x2002; 0x2003; 0x2004; 0x2005; 0x2006; 0x2007;
     0x2008; 0x2009; 0x200A; 0x2028; 0x2029; 0x202F; 0x205F; 0x3000;
     0xFEFF]%N.

Fixpoint drop_while (p : N -> bool) (s : jsstring) : jsstring :=
  match s with
  | [] => []
  | c :: s' => if p c then drop_while p s' else s
  end.

Definition trimStart (s : jsstring) : jsstring := drop_while is_ws s.
Definition trimEnd (s : jsstring) : jsstring := rev (drop_while is_ws (rev s)).
Definition trim (s : jsstring) : jsstring := trimEnd (trimStart s).

(** A string is falsy exactly when it is empty. *)
Definition nonempty (s : jsstring) : bool :=
  match s with [] => false | _ :: _ => true end.

Fixpoint starts_with (p s : jsstring) : bool :=
  match p, s with
  | [], _ => true
  | _ :: _, [] => false
  | a :: p', b :: s' => N.eqb a b && starts_with p' s'
  end.

(** [s.split(sep)] for a non-empty separator: scan from the left; at a match
    close the current piece and skip the separator, otherwise move one code
    unit on.  [skip] counts the code units of a matched separator still to be
    passed over, [acc] is the current piece, reversed. *)
Fixpoint split_aux (sep s : jsstring) (skip : nat) (acc : jsstring)
  : list jsstring :=
  match s with
  | [] => [rev acc]
  | c :: s' =>
      match skip with
      | S k => split_aux sep s' k acc
      | O =>
          if starts_with sep s
          then rev acc :: split_aux sep s' (length sep - 1) []
          else split_aux sep s' 0 (c :: acc)
      end
  end.

Definition split (sep s : jsstring) : list jsstring :=
  match sep with
  | [] => map (fun c => [c]) s
  | _ :: _ => split_aux sep s 0 []
  end.

(** [parts.join(sep)]. *)
Fixpoint join (sep : jsstring) (parts : list jsstring) : jsstring :=
  match parts with
  | [] => []
  | [p] => p
  | p :: rest => p ++ sep ++ join sep rest
  end.

(** [s.slice(from, to)] for indices inside [0, +oo). *)
Definition slice (from to : nat) (s : jsstring) : jsstring :=
  firstn (to - from) (skipn from s).

(** Code units of the characters the script names. *)
Definition LF : N := 10%N.
Definition BACKTICK : N := 96%N.

(** The triple-backtick delimiter. *)
Definition FENCE : jsstring := [BACKTICK; BACKTICK; BACKTICK].

(** ** escapeHtml *)

Definition escapeHtml (str : jsstring) : jsstring :=
  flat_map
    (fun c =>
       if N.eqb c 38 then lit "&amp;"
       else if N.eqb c 60 then lit "&lt;"
       else if N.eqb c 62 then lit "&gt;"
       else if N.eqb c 34 then lit "&quot;"
       else if N.eqb c 39 then lit "&#39;"
       else [c])
    str.

(** ** The message segmenter of appendBubble *)

(** The character class [[a-zA-Z0-9_-]]. *)
Definition ident_char (c : N) : bool :=
  ((97 <=? c) && (c <=? 122) || (65 <=? c) && (c <=? 90)
   || (48 <=? c) && (c <=? 57) || (c =? 95) || (c =? 45))%N.

(** [/^[a-zA-Z0-9_-]+$/.test(s)]. *)
Definition is_ident (s : jsstring) : bool :=
  nonempty s && forallb ident_char s.

(** [code.replace(/^\n+/, "")]. *)
Definition strip_leading_newlines (code : jsstring) : jsstring :=
  drop_while (N.eqb LF) code.

(** The body placed in the [pre] element for a piece at an odd index. *)
Definition code_body (part : jsstring) : jsstring :=
  let lines := split [LF] part in
  let lines :=
    if negb (length lines =? 0)%nat && is_ident (trim (hd [] lines))
    then tl lines          (* lines.shift() *)
    else lines in
  let code := join [LF] lines in
  strip_leading_newlines code.

(** What the loop of [appendBubble] emits: a [div] for prose, a [pre] for
    code.  The language line of a code piece is dropped, it is not kept
    anywhere in the emitted element. *)
Inductive Segment :=
| ProseSegment (text : jsstring)
| CodeSegment (body : jsstring).

(** [parts.forEach((part, idx) => ...)], from index [idx] on. *)
Fixpoint forEach_parts (parts : list jsstring) (idx : nat) : list Segment :=
  match parts with
  | [] => []
  | part :: rest =>
      (if Nat.even idx
       then (if nonempty (trim part) then [ProseSegment part] else [])
       else [CodeSegment (code_body part)])
      ++ forEach_parts rest (S idx)
  end.

Definition segment (text : jsstring) : list Segment :=
  let parts := split FENCE text in
  if (length parts =? 1)%nat
  then [ProseSegment text]
  else forEach_parts parts 0.

(** ** Notions used to state the properties of the segmenter *)

(** [sep] occurs somewhere in [s]. *)
Fixpoint occurs (sep s : jsstring) : bool :=
  starts_with sep s
  || match s with
     | [] => false
     | _ :: s' => occurs sep s'
     end.

(** The first occurrence of [sep] in [p ++ sep] is the one put at the end:
    no occurrence starts inside [p]. *)
Fixpoint first_at_end (sep p : jsstring) : bool :=
  match p with
  | [] => true
  | _ :: p' => negb (starts_with sep (p ++ sep)) && first_at_end sep p'
  end.

Definition ends_with_backtick (s : jsstring) : bool :=
  match rev s with
  | c :: _ => (c =? BACKTICK)%N
  | [] => false
  end.

(** The number of fence markers [split] finds in a text. *)
Definition fence_count (text : jsstring) : nat :=
  length (split FENCE text) - 1.

(** Modelled from the spec: the script has no function that joins segments
    back into a text.  "Joining the segments back with fences" writes a
    prose segment as its text and a code segment as its body between an
    opening and a closing fence, and puts these texts one after the
    other. *)
Definition segment_text (sg : Segment) : jsstring :=
  match sg with
  | ProseSegment text => text
  | CodeSegment body => FENCE ++ body ++ FENCE
  end.

Definition join_segments (segs : list Segment) : jsstring :=
  concat (map segment_text segs).

(** A prose segment that survives the round trip: not blank, without fence
    and, when more follows, not ending in a backtick that would run into
    the next fence. *)
Definition wf_prose (text : jsstring) (last : bool) : bool :=
  nonempty (trim text)
  && negb (occurs FENCE text)
  && (last || negb (ends_with_backtick text)).

(** A code body that survives it: without fence, not ending in a backtick,
    not starting with a newline, and with a first line that is not taken for
    a language tag. *)
Definition wf_code (body : jsstring) : bool :=
  negb (occurs FENCE body)
  && negb (ends_with_backtick body)
  && negb (starts_with [LF] body)
  && negb (is_ident (trim (hd [] (split [LF] body)))).

(** Code segments and single prose segments between them. *)
Fixpoint wf_slots (segs : list Segment) : bool :=
  match segs with
  | [] => true
  | CodeSegment body :: rest => wf_code body && wf_slots rest
  | ProseSegment text :: rest' =>
      match rest' with
      | [] => wf_prose text true
      | CodeSegment body :: rest =>
          wf_prose text false && wf_code body && wf_slots rest
      | ProseSegment _ :: _ => false
      end
  end.

Definition is_code (sg : Segment) : bool :=
  match sg with
  | ProseSegment _ => false
  | CodeSegment _ => true
  end.

Definition has_code (segs : list Segment) : bool := existsb is_code segs.

(** A well-formed sequence of segments: one prose segment without fence, or
    a sequence with at least one code segment in which no two prose segments
    are neighbours and every segment survives the round trip. *)
Definition well_formed_segments (segs : list Segment) : bool :=
  match segs with
  | [ProseSegment text] => negb (occurs FENCE text)
  | _ => has_code segs && wf_slots segs
  end.

(** The pieces of the text [join_segments] writes: prose and code take
    turns, and an empty piece stands where no prose was written. *)
Fixpoint joined_pieces (segs : list Segment) : list jsstring :=
  match segs with
  | [] => [[]]
  | CodeSegment body :: rest => [] :: body :: joined_pieces rest
  | ProseSegment text :: rest' =>
      match rest' with
      | CodeSegment body :: rest => text :: body :: joined_pieces rest
      | _ => [text]
      end
  end.

(** Pieces as [split] on the fence produces them: every piece but the last
    is closed by the first fence after it, the last one holds no fence. *)
Inductive fence_pieces : list jsstring -> Prop :=
| pieces_last (s : jsstring) :
    occurs FENCE s = false -> fence_pieces [s]
| pieces_cons (p : jsstring) (rest : list jsstring) :
    first_at_end FENCE p = true -> fence_pieces rest ->
    fence_pieces (p :: rest).

(** [/^demo-[0-9a-f]{8}$/.test(s)]. *)
Definition lower_hex_char (c : N) : bool :=
  ((48 <=? c) && (c <=? 57) || (97 <=? c) && (c <=? 102))%N.

Definition is_demo_id (s : jsstring) : bool :=
  starts_with (lit "demo-") s
  && (length (skipn 5 s) =? 8)%nat
  && forallb lower_hex_char (skipn 5 s).

(** ** Numbers as text *)

(** [String(n)] for an integer the script makes itself, a status code or a
    time in milliseconds: plain decimal digits.  Numbers decoded from JSON
    do not go through it, see [JNum]. *)
Definition Number_toString (n : Z) : jsstring :=
  lit (NilZero.string_of_int (Z.to_int n)).

(** The value [Math.random()] returns is a double in the interval [0, 1),
    that is a dyadic fraction [numerator / 2 ^ exponent] with
    [numerator < 2 ^ exponent]. *)
Record Dyadic := { numerator : N; exponent : N }.

Definition hex_digit (d : N) : N :=
  nth (N.to_nat d) (lit "0123456789abcdef") 0%N.

(** The hexadecimal digits after the point, most significant first, ending
    with the last non-zero digit. *)
Fixpoint frac_digits (fuel : nat) (m e : N) : jsstring :=
  match fuel with
  | O => []
  | S fuel' =>
      if (m =? 0)%N then []
      else
        let m16 := (m * 16)%N in
        hex_digit (m16 / 2 ^ e) :: frac_digits fuel' (m16 mod 2 ^ e) e
  end.

(** [x.toString(16)] for [x] in [0, 1): the exact expansion of the fraction,
    which for a double is also its shortest round-tripping one.  A fraction
    over [2 ^ e] has at most [e] digits, so the fuel is never used up. *)
Definition Number_toString16 (x : Dyadic) : jsstring :=
  if (numerator x =? 0)%N then lit "0"
  else lit "0." ++ frac_digits (S (N.to_nat (exponent x)))
                               (numerator x) (exponent x).

(** ** Values decoded from JSON *)

(** A number is given by the text [String()] returns for it: the shortest
    digits that read back as the same double, in exponent form from 1e21
    on.  That text determines the number, but for the sign of zero, which
    nothing in the script can tell: both zeros print as [0] and both are
    falsy.  So no arithmetic on doubles is needed, and integers beyond
    2^53 and fractions are covered like the small integers.  [NaN] is not
    among the values: they are decoded from JSON, which cannot write it. *)
Inductive jsval :=
| JUndefined
| JNull
| JBool (b : bool)
| JNum (printed : jsstring)
| JStr (s : jsstring)
| JArr (items : list jsval)
| JObj (fields : list (jsstring * jsval)).

(** An integer of absolute value below 2^53, where every integer is a
    double and prints as its decimal digits. *)
Definition JInt (n : Z) : jsval := JNum (Number_toString n).

Definition truthy (v : jsval) : bool :=
  match v with
  | JUndefined | JNull => false
  | JBool b => b
  | JNum printed => negb (str_eqb printed (lit "0"))
  | JStr s => nonempty s
  | JArr _ | JObj _ => true
  end.

(** [a || b]. *)
Definition js_or (a b : jsval) : jsval := if truthy a then a else b.

Definition nullish (v : jsval) : bool :=
  match v with JUndefined | JNull => true | _ => false end.

Fixpoint lookup (key : jsstring) (fields : list (jsstring * jsval)) : jsval :=
  match fields with
  | [] => JUndefined
  | (k, v) :: rest => if str_eqb k key then v else lookup key rest
  end.

(** [v.key] on a value that is neither [null] nor [undefined], for the keys
    the script reads (none of them is a built-in property). *)
Definition member (v : jsval) (key : jsstring) : jsval :=
  match v with
  | JObj fields => lookup key fields
  | _ => JUndefined
  end.

Definition has_key (key : jsstring) (fields : list (jsstring * jsval))
  : bool :=
  existsb (fun kv => str_eqb (fst kv) key) fields.

Fixpoint all_some {A : Type} (l : list (option A)) : option (list A) :=
  match l with
  | [] => Some []
  | None :: _ => None
  | Some a :: rest =>
      match all_some rest with
      | Some r => Some (a :: r)
      | None => None
      end
  end.

(** The string conversion of template literals and of the [textContent]
    setter; [None] when it throws.  A decoded object prints through
    [Object.prototype.toString] unless it has a key [toString] of its own:
    that value is not a function, [valueOf] gives no primitive either, and
    the conversion throws a [TypeError].  An array prints its elements
    joined by commas, [null] as nothing, and throws when an element
    does. *)
Fixpoint ToString (v : jsval) : option jsstring :=
  match v with
  | JUndefined => Some (lit "undefined")
  | JNull => Some (lit "null")
  | JBool true => Some (lit "true")
  | JBool false => Some (lit "false")
  | JNum printed => Some printed
  | JStr s => Some s
  | JArr items =>
      option_map (join (lit ","))
        (all_some
           (map (fun x => if nullish x then Some [] else ToString x) items))
  | JObj fields =>
      if has_key (lit "toString") fields then None
      else Some (lit "[object Object]")
  end.

(** The conversion does not throw. *)
Definition printable (v : jsval) : bool :=
  match ToString v with
  | Some _ => true
  | None => false
  end.

(** ** Errors *)

Record js_error := { err_name : jsstring; err_message : jsstring }.

(** [new Error(message)]. *)
Definition Error (message : jsstring) : js_error :=
  {| err_name := lit "Error"; err_message := message |}.

(** [String(err.message || err)]: the message, or for an empty message the
    text of the error itself, which is then its name. *)
Definition String_of_error (err : js_error) : jsstring :=
  if nonempty (err_message err) then err_message err else err_name err.

Definition Result (A : Type) : Type := (js_error + A)%type.

Definition bind {A B : Type} (r : Result A) (k : A -> Result B) : Result B :=
  match r with
  | inl e => inl e
  | inr a => k a
  end.

Notation "x <- r ;; k" := (bind r (fun x => k))
  (at level 61, r at next level, right associativity).

(** ** The page: elements, storage and the requests sent *)

Inductive Content :=
| InnerHTML (html : jsstring)
| TextContent (text : jsstring).

Record Element :=
  { tagName : jsstring; className : jsstring; content : Content }.

(** A chat bubble: the wrapping [div] and the children appended to it. *)
Record Bubble :=
  { wrap_className : jsstring; wrap_children : list Element }.

Record Request :=
  { req_url : jsstring;
    req_method : jsstring;
    req_headers : list (jsstring * jsstring);
    req_body : jsstring }.

Inductive Focus := NoFocus | FocusChatInput | FocusCodeInput.

(** The class and attribute state [setMode] toggles. *)
Record Tabs :=
  { tabChat_active : bool; tabChat_selected : bool;
    tabCheck_active : bool; tabCheck_selected : bool;
    chatPanel_hidden : bool; checkPanel_hidden : bool }.

(** [localStorage] as a list of entries, at most one per key. *)
Definition Storage := list (jsstring * jsstring).

Fixpoint getItem (key : jsstring) (st : Storage) : option jsstring :=
  match st with
  | [] => None
  | (k, v) :: rest => if str_eqb k key then Some v else getItem key rest
  end.

Fixpoint removeItem (key : jsstring) (st : Storage) : Storage :=
  match st with
  | [] => []
  | (k, v) :: rest =>
      if str_eqb k key then removeItem key rest
      else (k, v) :: removeItem key rest
  end.

Definition setItem (key value : jsstring) (st : Storage) : Storage :=
  (key, value) :: removeItem key st.

Record Page :=
  { sessionIdInput : jsstring;      (* sessionIdInput.value *)
    chatInput : jsstring;           (* chatInput.value *)
    codeInput : jsstring;           (* codeInput.value *)
    autoFix : bool;                 (* autoFix.checked *)
    includeDiff : bool;             (* includeDiff.checked *)
    chatLog : list Bubble;          (* children of chatLog *)
    resultSummary : jsstring;       (* resultSummary.textContent *)
    violationsEl : list Element;    (* children of violationsEl *)
    fixedCodeEl : jsstring;         (* fixedCodeEl.textContent *)
    unifiedDiffEl : jsstring;       (* unifiedDiffEl.textContent *)
    tabs : Tabs;
    focus : Focus;
    localStorage : Storage;
    requests : list Request }.      (* fetch calls issued, oldest first *)

Definition set_sessionIdInput (v : jsstring) (p : Page) : Page :=
  {| sessionIdInput := v; chatInput := chatInput p; codeInput := codeInput p;
     autoFix := autoFix p; includeDiff := includeDiff p; chatLog := chatLog p;
     resultSummary := resultSummary p; violationsEl := violationsEl p;
     fixedCodeEl := fixedCodeEl p; unifiedDiffEl := unifiedDiffEl p;
     tabs := tabs p; focus := focus p; localStorage := localStorage p;
     requests := requests p |}.

Definition set_chatInput (v : jsstring) (p : Page) : Page :=
  {| sessionIdInput := sessionIdInput p; chatInput := v;
     codeInput := codeInput p;
     autoFix := autoFix p; includeDiff := includeDiff p; chatLog := chatLog p;
     resultSummary := resultSummary p; violationsEl := violationsEl p;
     fixedCodeEl := fixedCodeEl p; unifiedDiffEl := unifiedDiffEl p;
     tabs := tabs p; focus := focus p; localStorage := localStorage p;
     requests := requests p |}.

Definition set_codeInput (v : jsstring) (p : Page) : Page :=
  {| sessionIdInput := sessionIdInput p; chatInput := chatInput p;
     codeInput := v;
     autoFix := autoFix p; includeDiff := includeDiff p; chatLog := chatLog p;
     resultSummary := resultSummary p; violationsEl := violationsEl p;
     fixedCodeEl := fixedCodeEl p; unifiedDiffEl := unifiedDiffEl p;
     tabs := tabs p; focus := focus p; localStorage := localStorage p;
     requests := requests p |}.

Definition set_checkboxes (fix_ diff_ : bool) (p : Page) : Page :=
  {| sessionIdInput := sessionIdInput p; chatInput := chatInput p;
     codeInput := codeInput p;
     autoFix := fix_; includeDiff := diff_; chatLog := chatLog p;
     resultSummary := resultSummary p; violationsEl := violationsEl p;
     fixedCodeEl := fixedCodeEl p; unifiedDiffEl := unifiedDiffEl p;
     tabs := tabs p; focus := focus p; localStorage := localStorage p;
     requests := requests p |}.

Definition set_chatLog (v : list Bubble) (p : Page) : Page :=
  {| sessionIdInput := sessionIdInput p; chatInput := chatInput p;
     codeInput := codeInput p;
     autoFix := autoFix p; includeDiff := includeDiff p; chatLog := v;
     resultSummary := resultSummary p; violationsEl := violationsEl p;
     fixedCodeEl := fixedCodeEl p; unifiedDiffEl := unifiedDiffEl p;
     tabs := tabs p; focus := focus p; localStorage := localStorage p;
     requests := requests p |}.

Definition set_resultSummary (v : jsstring) (p : Page) : Page :=
  {| sessionIdInput := sessionIdInput p; chatInput := chatInput p;
     codeInput := codeInput p;
     autoFix := autoFix p; includeDiff := includeDiff p; chatLog := chatLog p;
     resultSummary := v; violationsEl := violationsEl p;
     fixedCodeEl := fixedCodeEl p; unifiedDiffEl := unifiedDiffEl p;
     tabs := tabs p; focus := focus p; localStorage := localStorage p;
     requests := requests p |}.

Definition set_violationsEl (v : list Element) (p : Page) : Page :=
  {| sessionIdInput := sessionIdInput p; chatInput := chatInput p;
     codeInput := codeInput p;
     autoFix := autoFix p; includeDiff := includeDiff p; chatLog := chatLog p;
     resultSummary := resultSummary p; violationsEl := v;
     fixedCodeEl := fixedCodeEl p; unifiedDiffEl := unifiedDiffEl p;
     tabs := tabs p; focus := focus p; localStorage := localStorage p;
     requests := requests p |}.

Definition set_fixedCodeEl (v : jsstring) (p : Page) : Page :=
  {| sessionIdInput := sessionIdInput p; chatInput := chatInput p;
     codeInput := codeInput p;
     autoFix := autoFix p; includeDiff := includeDiff p; chatLog := chatLog p;
     resultSummary := resultSummary p; violationsEl := violationsEl p;
     fixedCodeEl := v; unifiedDiffEl := unifiedDiffEl p;
     tabs := tabs p; focus := focus p; localStorage := localStorage p;
     requests := requests p |}.

Definition set_unifiedDiffEl (v : jsstring) (p : Page) : Page :=
  {| sessionIdInput := sessionIdInput p; chatInput := chatInput p;
     codeInput := codeInput p;
     autoFix := autoFix p; includeDiff := includeDiff p; chatLog := chatLog p;
     resultSummary := resultSummary p; violationsEl := violationsEl p;
     fixedCodeEl := fixedCodeEl p; unifiedDiffEl := v;
     tabs := tabs p; focus := focus p; localStorage := localStorage p;
     requests := requests p |}.

Definition set_tabs (v : Tabs) (f : Focus) (p : Page) : Page :=
  {| sessionIdInput := sessionIdInput p; chatInput := chatInput p;
     codeInput := codeInput p;
     autoFix := autoFix p; includeDiff := includeDiff p; chatLog := chatLog p;
     resultSummary := resultSummary p; violationsEl := violationsEl p;
     fixedCodeEl := fixedCodeEl p; unifiedDiffEl := unifiedDiffEl p;
     tabs := v; focus := f; localStorage := localStorage p;
     requests := requests p |}.

Definition set_localStorage (v : Storage) (p : Page) : Page :=
  {| sessionIdInput := sessionIdInput p; chatInput := chatInput p;
     codeInput := codeInput p;
     autoFix := autoFix p; includeDiff := includeDiff p; chatLog := chatLog p;
     resultSummary := resultSummary p; violationsEl := violationsEl p;
     fixedCodeEl := fixedCodeEl p; unifiedDiffEl := unifiedDiffEl p;
     tabs := tabs p; focus := focus p; localStorage := v;
     requests := requests p |}.

Definition set_requests (v : list Request) (p : Page) : Page :=
  {| sessionIdInput := sessionIdInput p; chatInput := chatInput p;
     codeInput := codeInput p;
     autoFix := autoFix p; includeDiff := includeDiff p; chatLog := chatLog p;
     resultSummary := resultSummary p; violationsEl := violationsEl p;
     fixedCodeEl := fixedCodeEl p; unifiedDiffEl := unifiedDiffEl p;
     tabs := tabs p; focus := focus p; localStorage := localStorage p;
     requests := v |}.

(** ** The script *)

(** The outcome of one [fetch] followed by [res.text()]: the promise is
    rejected, or a response arrives with its status and its body text. *)
Inductive FetchResult :=
| Rejected (err : js_error)
| Responded (status : N) (text : jsstring).

Definition DQ : jsstring := [34%N].

(** ** A sample engine and a sample page, for concrete evaluations *)

(** Lower-casing that leaves text outside ASCII as it is, which is right
    for scripts without case such as Hangul. *)
Definition sample_toLowerCase (s : jsstring) : jsstring := s.

(** A decoder that knows the empty object and [null] and rejects the rest. *)
Definition sample_JSON_parse (text : jsstring) : option jsval :=
  if str_eqb text (lit "{}") then Some (JObj [])
  else if str_eqb text (lit "null") then Some JNull
  else None.

Definition sample_JSON_stringify (indent : nat) (v : jsval) : jsstring :=
  match ToString v with
  | Some text => text
  | None => []
  end.

Definition sample_toLocaleTimeString (clock : N) : jsstring :=
  Number_toString (Z.of_N clock).

Definition sample_TypeError_message (site : jsstring) : jsstring :=
  site ++ lit " is not a function".

(** A page with every field empty and nothing stored. *)
Definition blank_page : Page :=
  {| sessionIdInput := []; chatInput := []; codeInput := [];
     autoFix := false; includeDiff := false; chatLog := [];
     resultSummary := []; violationsEl := [];
     fixedCodeEl := []; unifiedDiffEl := [];
     tabs := {| tabChat_active := false; tabChat_selected := false;
                tabCheck_active := false; tabCheck_selected := false;
                chatPanel_hidden := false; checkPanel_hidden := false |};
     focus := NoFocus; localStorage := []; requests := [] |}.

Section Script.

(** What the JavaScript engine and the browser supply.  Lower-casing outside
    ASCII, JSON decoding and encoding, the locale's time format and the
    wording of the engine's own [TypeError]s are taken as they come. *)
Variable unicode_toLowerCase : jsstring -> jsstring.
Variable JSON_parse : jsstring -> option jsval.       (* None: SyntaxError *)
Variable JSON_stringify : nat -> jsval -> jsstring.   (* indent, value *)
Variable toLocaleTimeString : N -> jsstring.
Variable TypeError_message : jsstring -> jsstring.

Definition TypeError (site : jsstring) : js_error :=
  {| err_name := lit "TypeError"; err_message := TypeError_message site |}.

Definition ascii_lower (c : N) : N :=
  if ((65 <=? c) && (c <=? 90))%N then (c + 32)%N else c.

(** [s.toLowerCase()]. *)
Definition toLowerCase (s : jsstring) : jsstring :=
  if forallb (fun c => (c <? 128)%N) s then map ascii_lower s
  else unicode_toLowerCase s.

Definition STORAGE_KEY : jsstring := lit "ai_code_rule_checker_session_id".

(** [now()], read at time [clock]. *)
Definition now (clock : N) : jsstring := toLocaleTimeString clock.

Definition setMode (mode : jsstring) (p : Page) : Page :=
  if str_eqb mode (lit "chat") then
    set_tabs {| tabChat_active := true; tabChat_selected := true;
                tabCheck_active := false; tabCheck_selected := false;
                chatPanel_hidden := false; checkPanel_hidden := true |}
             FocusChatInput p
  else
    set_tabs {| tabChat_active := false; tabChat_selected := false;
                tabCheck_active := true; tabCheck_selected := true;
                chatPanel_hidden := true; checkPanel_hidden := false |}
             FocusCodeInput p.

(** [getSessionId()]; [rnd] is what [Math.random()] returns if it is
    called. *)
Definition getSessionId (rnd : Dyadic) (p : Page) : jsstring * Page :=
  let sid := trim (sessionIdInput p) in
  let '(sid, p) :=
    if negb (nonempty sid) then
      let sid := lit "demo-" ++ slice 2 10 (Number_toString16 rnd) in
      (sid, set_sessionIdInput sid p)
    else (sid, p) in
  let p := set_localStorage (setItem STORAGE_KEY sid (localStorage p)) p in
  (sid, p).

Definition loadSessionId (rnd : Dyadic) (p : Page) : Page :=
  match getItem STORAGE_KEY (localStorage p) with
  | Some ((_ :: _) as sid) => set_sessionIdInput sid p
  | _ =>
      set_sessionIdInput (lit "demo-" ++ slice 2 10 (Number_toString16 rnd)) p
  end.

Definition render_segment (sg : Segment) : Element :=
  match sg with
  | ProseSegment part =>
      {| tagName := lit "div"; className := [];
         content := InnerHTML (escapeHtml part) |}
  | CodeSegment code =>
      {| tagName := lit "pre"; className := lit "codeblock";
         content := TextContent code |}
  end.

(** [appendBubble(role, text, meta)]; [meta] is [None] when the argument is
    left out.  The loop over the pieces is [segment], the element it creates
    for each emitted piece is [render_segment]. *)
Definition appendBubble (role text : jsstring) (meta : option jsstring)
           (clock : N) (p : Page) : Page :=
  let metaText :=
    match meta with
    | Some ((_ :: _) as m) => m
    | _ => now clock
    end in
  let metaDiv :=
    {| tagName := lit "div"; className := lit "meta";
       content :=
         InnerHTML
           (lit "<span>"
            ++ (if str_eqb role (lit "user") then lit "You" else lit "AI")
            ++ lit "</span><span class=" ++ DQ ++ lit "pill" ++ DQ ++ lit ">"
            ++ escapeHtml metaText ++ lit "</span>") |} in
  let wrap :=
    {| wrap_className := lit "bubble " ++ role;
       wrap_children := metaDiv :: map render_segment (segment text) |} in
  set_chatLog (chatLog p ++ [wrap]) p.

(** The request [postJson(url, data)] sends. *)
Definition postJson_request (url : jsstring) (data : jsval) : Request :=
  {| req_url := url;
     req_method := lit "POST";
     req_headers := [(lit "Content-Type", lit "application/json")];
     req_body := JSON_stringify 0 data |}.

Definition fetch (r : Request) (p : Page) : Page :=
  set_requests (requests p ++ [r]) p.

(** What [postJson] returns or throws once the request has settled. *)
Definition postJson (res : FetchResult) : Result jsval :=
  match res with
  | Rejected err => inl err
  | Responded status text =>
      if negb ((200 <=? status) && (status <=? 299))%N then
        inl (Error (if nonempty text then text
                    else lit "HTTP " ++ Number_toString (Z.of_N status)))
      else
        match JSON_parse text with
        | Some v => inr v
        | None => inr (JObj [(lit "raw", JStr text)])
        end
  end.

Definition error_prefix : jsstring := [0xC5D0; 0xB7EC]%N ++ lit ": ".

(** [sendChat], up to the [await]. *)
Definition sendChat (rnd : Dyadic) (clock date_now : N) (p : Page) : Page :=
  let msg := chatInput p in
  if negb (nonempty (trim msg)) then p
  else
    let '(sid, p) := getSessionId rnd p in
    let p := appendBubble (lit "user") msg None clock p in
    let p := set_chatInput [] p in
    let p := set_tabs (tabs p) FocusChatInput p in
    let loadingId := lit "loading-" ++ Number_toString (Z.of_N date_now) in
    let p :=
      appendBubble (lit "assistant")
                   ([0xC0DD; 0xAC01]%N ++ lit " " ++ [0xC911; 0x2026]%N)
                   (Some loadingId) clock p in
    fetch (postJson_request (lit "/agent")
             (JObj [(lit "session_id", JStr sid);
                    (lit "input", JStr msg);
                    (lit "debug", JBool false)]))
          p.

(** The first argument of the last [appendBubble] of [sendChat]:
    [out.output || JSON.stringify(out, null, 2)], which [appendBubble] then
    splits, so that anything but a string throws. *)
Definition agent_reply_text (out : jsval) : Result jsstring :=
  if nullish out then inl (TypeError (lit "out.output"))
  else
    match js_or (member out (lit "output")) (JStr (JSON_stringify 2 out)) with
    | JStr text => inr text
    | _ => inl (TypeError (lit "text.split"))
    end.

(** [sendChat], from the [await] on. *)
Definition sendChat_settled (res : FetchResult) (clock : N) (p : Page)
  : Page :=
  match (out <- postJson res ;; agent_reply_text out) with
  | inr text => appendBubble (lit "assistant") text None clock p
  | inl err =>
      appendBubble (lit "assistant") (error_prefix ++ String_of_error err)
                   None clock p
  end.

(** The guidance text of [clearChat]. *)
Definition guidance : jsstring :=
  [0xC548; 0xB0B4]%N ++ lit ":" ++ [LF] ++ lit "- "
  ++ [0xADDC; 0xCE59; 0xC744]%N ++ lit " "
  ++ [0xBB3C; 0xC5B4; 0xBCF4; 0xBA74]%N ++ lit " "
  ++ [0xADDC; 0xCE59; 0xC744]%N ++ lit " "
  ++ [0xC124; 0xBA85; 0xD55C; 0xB2E4]%N ++ lit "." ++ [LF] ++ lit "- "
  ++ [0xCF54; 0xB4DC; 0xB97C]%N ++ lit " "
  ++ [0xBD99; 0xC5EC; 0xB123; 0xC73C; 0xBA74]%N ++ lit " "
  ++ [0xADDC; 0xCE59]%N ++ lit " " ++ [0xC704; 0xBC18; 0xC744]%N ++ lit " "
  ++ [0xCC3E; 0xACE0]%N ++ lit ", " ++ [0xAC00; 0xB2A5; 0xD55C]%N ++ lit " "
  ++ [0xACBD; 0xC6B0]%N ++ lit " " ++ [0xACE0; 0xCE5C; 0xB2E4]%N ++ lit "."
  ++ [LF; LF] ++ [0xC608; 0xC2DC]%N ++ lit " " ++ [0xC9C8; 0xBB38]%N
  ++ lit ":" ++ [LF] ++ lit "1) " ++ [0xD300]%N ++ lit " " ++ [0xB0B4]%N
  ++ lit " " ++ [0xADDC; 0xCE59]%N ++ lit " " ++ [0xC804; 0xBD80]%N
  ++ lit " " ++ [0xC54C; 0xB824; 0xC918]%N ++ [LF] ++ lit "2) import "
  ++ [0xC21C; 0xC11C]%N ++ lit " " ++ [0xADDC; 0xCE59; 0xC774]%N ++ lit " "
  ++ [0xBB50; 0xC57C]%N ++ lit "?" ++ [LF] ++ lit "3) "
  ++ [0xC544; 0xB798]%N ++ lit " " ++ [0xCF54; 0xB4DC; 0xB97C]%N ++ lit " "
  ++ [0xADDC; 0xCE59; 0xC5D0]%N ++ lit " " ++ [0xB9DE; 0xAC8C]%N ++ lit " "
  ++ [0xACE0; 0xCCD0; 0xC918]%N ++ [LF]
  ++ FENCE ++ lit "python" ++ [LF] ++ lit "from b import x" ++ [LF]
  ++ lit "from a import y" ++ [LF] ++ lit "print(1)" ++ [LF] ++ FENCE.

Definition clearChat (clock : N) (p : Page) : Page :=
  appendBubble (lit "assistant") guidance None clock (set_chatLog [] p).

(** *** renderCheckResult *)

(** The placeholder shown for a result without summary. *)
Definition NO_SUMMARY : jsstring :=
  lit "(summary " ++ [0xC5C6; 0xC74C]%N ++ lit ")".

(** The text of the single muted line shown for an empty violation list. *)
Definition NO_VIOLATIONS : jsstring :=
  [0xC704; 0xBC18; 0xC774]%N ++ lit " " ++ [0xC5C6; 0xB2E4]%N ++ lit ".".

(** [escapeHtml(x)] on a decoded value: only a string has [replace]. *)
Definition escapeHtml_val (x : jsval) : Result jsstring :=
  match x with
  | JStr str => inr (escapeHtml str)
  | _ => inl (TypeError (lit "str.replace"))
  end.

(** [const sev = (v.severity || "warning").toLowerCase()]. *)
Definition vio_sev (v : jsval) : Result jsstring :=
  if nullish v then inl (TypeError (lit "v.severity"))
  else
    match js_or (member v (lit "severity")) (JStr (lit "warning")) with
    | JStr sev => inr (toLowerCase sev)
    | _ => inl (TypeError (lit "toLowerCase"))
    end.

(** [`${x}`]: the text of [x], or the [TypeError] of the conversion. *)
Definition template_text (x : jsval) : Result jsstring :=
  match ToString x with
  | Some text => inr text
  | None => inl (TypeError (lit "line"))
  end.

(** [const line = ...], reached only after [sev], so for a [v] that is
    neither [null] nor [undefined]. *)
Definition vio_line (v : jsval) : Result jsstring :=
  let start_line := member v (lit "start_line") in
  let end_line := member v (lit "end_line") in
  if truthy start_line && truthy end_line
  then
    start_text <- template_text start_line ;;
    end_text <- template_text end_line ;;
    inr (start_text ++ lit "~" ++ end_text)
  else if truthy start_line then template_text start_line
  else inr (lit "-").

Definition indent (n : nat) : jsstring := LF :: repeat 32%N n.

(** The element built for one entry of [vios]. *)
Definition vio_box (v : jsval) : Result Element :=
  sev <- vio_sev v ;;
  line <- vio_line v ;;
  title <- escapeHtml_val
             (js_or (member v (lit "title"))
                    (js_or (member v (lit "rule_id")) (JStr (lit "RULE")))) ;;
  rule_id <- escapeHtml_val (js_or (member v (lit "rule_id")) (JStr [])) ;;
  message <- escapeHtml_val (js_or (member v (lit "message")) (JStr [])) ;;
  suggestion <-
    (if truthy (member v (lit "suggestion")) then
       sg <- escapeHtml_val (member v (lit "suggestion")) ;;
       inr (lit "<div class=" ++ DQ ++ lit "vio-suggest" ++ DQ ++ lit ">"
            ++ [0xC81C; 0xC548]%N ++ lit ": " ++ sg ++ lit "</div>")
     else inr []) ;;
  inr {| tagName := lit "div";
         className := lit "vio";
         content :=
           InnerHTML
             (indent 8 ++ lit "<div class=" ++ DQ ++ lit "vio-top" ++ DQ
              ++ lit ">"
              ++ indent 10 ++ lit "<div>"
              ++ indent 12 ++ lit "<div class=" ++ DQ ++ lit "vio-title"
              ++ DQ ++ lit ">" ++ title ++ lit "</div>"
              ++ indent 12 ++ lit "<div class=" ++ DQ ++ lit "vio-meta"
              ++ DQ ++ lit ">" ++ rule_id ++ lit " " ++ [0xB7%N]
              ++ lit " line " ++ escapeHtml line ++ lit "</div>"
              ++ indent 10 ++ lit "</div>"
              ++ indent 10 ++ lit "<span class=" ++ DQ ++ lit "badge "
              ++ escapeHtml sev ++ DQ ++ lit ">" ++ escapeHtml sev
              ++ lit "</span>"
              ++ indent 8 ++ lit "</div>"
              ++ indent 8 ++ lit "<div class=" ++ DQ ++ lit "vio-msg" ++ DQ
              ++ lit ">" ++ message ++ lit "</div>"
              ++ indent 8 ++ suggestion
              ++ indent 6) |}.

(** [vios.forEach(...)]: boxes are appended one by one, an exception leaves
    those already appended in place. *)
Fixpoint forEach_vios (vios : list jsval) (p : Page)
  : Page * option js_error :=
  match vios with
  | [] => (p, None)
  | v :: rest =>
      match vio_box v with
      | inl err => (p, Some err)
      | inr box =>
          forEach_vios rest (set_violationsEl (violationsEl p ++ [box]) p)
      end
  end.

(** [Array.isArray(result.violations) ? result.violations : []]. *)
Definition vios_of (result : jsval) : list jsval :=
  match member result (lit "violations") with
  | JArr items => items
  | _ => []
  end.

(** [renderCheckResult(result)]: the page afterwards, and the exception if
    one was thrown on the way.  A [textContent] setter that throws on the
    conversion of its value leaves the element as it was. *)
Definition renderCheckResult (result : jsval) (p : Page)
  : Page * option js_error :=
  if nullish result then (p, Some (TypeError (lit "result.summary")))
  else
    match ToString (js_or (member result (lit "summary")) (JStr NO_SUMMARY))
    with
    | None => (p, Some (TypeError (lit "resultSummary.textContent")))
    | Some summary =>
    let p := set_resultSummary summary p in
    let p := set_violationsEl [] p in
    match ToString (js_or (member result (lit "fixed_code")) (JStr [])) with
    | None => (p, Some (TypeError (lit "fixedCodeEl.textContent")))
    | Some fixed =>
    let p := set_fixedCodeEl fixed p in
    match ToString (js_or (member result (lit "unified_diff")) (JStr [])) with
    | None => (p, Some (TypeError (lit "unifiedDiffEl.textContent")))
    | Some diff =>
    let p := set_unifiedDiffEl diff p in
    let vios := vios_of result in
    if (length vios =? 0)%nat then
      let empty :=
        {| tagName := lit "div"; className := lit "muted";
           content := TextContent NO_VIOLATIONS |} in
      (set_violationsEl (violationsEl p ++ [empty]) p, None)
    else forEach_vios vios p
    end end end.

(** *** runCheck *)

(** The prompt shown when the code box is blank. *)
Definition CODE_REQUIRED : jsstring :=
  [0xCF54; 0xB4DC; 0xB97C]%N ++ lit " " ++ [0xC785; 0xB825; 0xD574; 0xC57C]%N
  ++ lit " " ++ [0xD55C; 0xB2E4]%N ++ lit ".".

Definition RUNNING : jsstring :=
  [0xC2E4; 0xD589]%N ++ lit " " ++ [0xC911; 0x2026]%N.

(** [runCheck], up to the [await]. *)
Definition runCheck (rnd : Dyadic) (p : Page) : Page :=
  let code := codeInput p in
  if negb (nonempty (trim code)) then set_resultSummary CODE_REQUIRED p
  else
    let '(sid, p) := getSessionId rnd p in
    let p := set_resultSummary RUNNING p in
    let p := set_violationsEl [] p in
    let p := set_fixedCodeEl [] p in
    let p := set_unifiedDiffEl [] p in
    fetch (postJson_request (lit "/check")
             (JObj [(lit "session_id", JStr sid);
                    (lit "language", JStr (lit "python"));
                    (lit "code", JStr code);
                    (lit "auto_fix", JBool (autoFix p));
                    (lit "include_diff", JBool (includeDiff p))]))
          p.

(** [runCheck], from the [await] on. *)
Definition runCheck_settled (res : FetchResult) (p : Page) : Page :=
  match postJson res with
  | inr out =>
      match renderCheckResult out p with
      | (p, None) => p
      | (p, Some err) =>
          set_resultSummary (error_prefix ++ String_of_error err) p
      end
  | inl err => set_resultSummary (error_prefix ++ String_of_error err) p
  end.

Definition pasteResultToChat (clock : N) (p : Page) : Page :=
  let summary := resultSummary p in
  let fixed := fixedCodeEl p in
  let diff := unifiedDiffEl p in
  let msg :=
    [0xCF54; 0xB4DC]%N ++ lit " " ++ [0xAC80; 0xC0AC]%N ++ lit " "
    ++ [0xACB0; 0xACFC]%N ++ lit ":" ++ [LF] ++ summary ++ [LF] in
  let msg :=
    if nonempty (trim fixed)
    then msg ++ [LF] ++ lit "fixed_code:" ++ [LF] ++ FENCE ++ lit "python"
             ++ [LF] ++ fixed ++ [LF] ++ FENCE ++ [LF]
    else msg in
  let msg :=
    if nonempty (trim diff)
    then msg ++ [LF] ++ lit "diff:" ++ [LF] ++ FENCE ++ lit "diff"
             ++ [LF] ++ diff ++ [LF] ++ FENCE ++ [LF]
    else msg in
  setMode (lit "chat") (appendBubble (lit "assistant") msg None clock p).

(** The [change] listener of the session id field. *)
Definition sessionId_change (p : Page) : Page :=
  let sid := trim (sessionIdInput p) in
  if nonempty sid
  then set_localStorage (setItem STORAGE_KEY sid (localStorage p)) p
  else p.

(** The [keydown] listener of the chat box. *)
Definition chatInput_keydown (key : jsstring) (ctrlKey metaKey : bool)
           (rnd : Dyadic) (clock date_now : N) (p : Page) : Page :=
  if str_eqb key (lit "Enter") && (ctrlKey || metaKey)
  then sendChat rnd clock date_now p
  else p.

(** The three calls at the end of the script. *)
Definition init (rnd : Dyadic) (clock : N) (p : Page) : Page :=
  setMode (lit "chat") (clearChat clock (loadSessionId rnd p)).

(** *** What can happen to a page *)

Inductive Event :=
| ClickTabChat
| ClickTabCheck
| ClickSend (rnd : Dyadic) (clock date_now : N)
| KeydownChat (key : jsstring) (ctrlKey metaKey : bool)
              (rnd : Dyadic) (clock date_now : N)
| ClickClear (clock : N)
| ClickCheck (rnd : Dyadic)
| ClickToChat (clock : N)
| EditSessionId (value : jsstring)   (* the user edits the field: [change] *)
| TypeChat (value : jsstring)
| TypeCode (value : jsstring)
| SetCheckboxes (auto_fix include_diff : bool)
| AgentSettled (res : FetchResult) (clock : N)
| CheckSettled (res : FetchResult).

Definition step (ev : Event) (p : Page) : Page :=
  match ev with
  | ClickTabChat => setMode (lit "chat") p
  | ClickTabCheck => setMode (lit "check") p
  | ClickSend rnd clock date_now => sendChat rnd clock date_now p
  | KeydownChat key ctrlKey metaKey rnd clock date_now =>
      chatInput_keydown key ctrlKey metaKey rnd clock date_now p
  | ClickClear clock => clearChat clock p
  | ClickCheck rnd => runCheck rnd p
  | ClickToChat clock => pasteResultToChat clock p
  | EditSessionId value => sessionId_change (set_sessionIdInput value p)
  | TypeChat value => set_chatInput value p
  | TypeCode value => set_codeInput value p
  | SetCheckboxes auto_fix include_diff =>
      set_checkboxes auto_fix include_diff p
  | AgentSettled res clock => sendChat_settled res clock p
  | CheckSettled res => runCheck_settled res p
  end.


(** ** Notions used to state further properties of the script *)

(** The replacement [escapeHtml] makes for one code unit. *)
Definition escape_char (c : N) : jsstring :=
  if N.eqb c 38 then lit "&amp;"
  else if N.eqb c 60 then lit "&lt;"
  else if N.eqb c 62 then lit "&gt;"
  else if N.eqb c 34 then lit "&quot;"
  else if N.eqb c 39 then lit "&#39;"
  else [c].

(** The characters that open or close markup or an attribute value. *)
Definition markup_char (c : N) : bool :=
  ((c =? 60) || (c =? 62) || (c =? 34) || (c =? 39))%N.

Definition segment_payload (sg : Segment) : jsstring :=
  match sg with
  | ProseSegment text => text
  | CodeSegment body => body
  end.

(** What the round trip needs of the pieces written for a sequence. *)
Definition pieces_round_trip (segs : list Segment) : Prop :=
  join_segments segs = join FENCE (joined_pieces segs)
  /\ fence_pieces (joined_pieces segs)
  /\ forEach_parts (joined_pieces segs) 0 = segs.

Definition count_code (segs : list Segment) : nat :=
  length (filter is_code segs).

(** A field that [escapeHtml] and [toLowerCase] accept where the script
    passes it on: a string, or a falsy value that the script replaces. *)
Definition text_or_falsy (x : jsval) : bool :=
  match x with
  | JStr _ => true
  | _ => negb (truthy x)
  end.

(** The line numbers the template of [line] converts can be converted:
    [start_line] whenever it is truthy, [end_line] when both are. *)
Definition line_printable (v : jsval) : bool :=
  let start_line := member v (lit "start_line") in
  let end_line := member v (lit "end_line") in
  if truthy start_line
  then printable start_line
       && (if truthy end_line then printable end_line else true)
  else true.

Definition well_typed_violation (v : jsval) : bool :=
  negb (nullish v)
  && text_or_falsy (member v (lit "severity"))
  && line_printable v
  && text_or_falsy (member v (lit "title"))
  && text_or_falsy (member v (lit "rule_id"))
  && text_or_falsy (member v (lit "message"))
  && text_or_falsy (member v (lit "suggestion")).

(** The three values [renderCheckResult] hands to [textContent] can be
    converted. *)
Definition result_printable (result : jsval) : bool :=
  printable (js_or (member result (lit "summary")) (JStr NO_SUMMARY))
  && printable (js_or (member result (lit "fixed_code")) (JStr []))
  && printable (js_or (member result (lit "unified_diff")) (JStr [])).

(** The stored session id, if there is one, is non-empty and trimmed. *)
Definition stored_id_ok (st : Storage) : Prop :=
  match getItem STORAGE_KEY st with
  | None => True
  | Some sid => nonempty sid = true /\ trim sid = sid
  end.

(** Exactly one tab is active and selected, and its panel is the one
    shown. *)
Definition tabs_consistent (t : Tabs) : bool :=
  Bool.eqb (tabChat_active t) (negb (tabCheck_active t))
  && Bool.eqb (tabChat_selected t) (tabChat_active t)
  && Bool.eqb (tabCheck_selected t) (tabCheck_active t)
  && Bool.eqb (chatPanel_hidden t) (negb (tabChat_active t))
  && Bool.eqb (checkPanel_hidden t) (negb (tabCheck_active t)).

(** The page after a sequence of events, oldest first. *)
Definition run (evs : list Event) (p : Page) : Page :=
  fold_left (fun q ev => step ev q) evs p.

(** The first line of the message [pasteResultToChat] builds. *)
Definition PASTE_HEADER : jsstring :=
  [0xCF54; 0xB4DC]%N ++ lit " " ++ [0xAC80; 0xC0AC]%N ++ lit " "
  ++ [0xACB0; 0xACFC]%N ++ lit ":" ++ [LF].

(** * Properties *)

(** ** Splitting and joining *)

Lemma starts_with_app (sep rest : jsstring) :
  starts_with sep (sep ++ rest) = true.
Proof.
  induction sep as [|a sep IH]; simpl.
  - reflexivity.
  - now rewrite N.eqb_refl.
Qed.

Lemma starts_with_window (sep x rest : jsstring) :
  length sep <= length x ->
  starts_with sep (x ++ rest) = starts_with sep x.
Proof.
  revert x; induction sep as [|a sep IH]; intros x Hlen.
  - reflexivity.
  - destruct x as [|b x]; simpl in *; [lia|].
    now rewrite IH by lia.
Qed.

Lemma starts_with_inv (sep x : jsstring) :
  starts_with sep x = true -> exists rest, x = sep ++ rest.
Proof.
  revert x; induction sep as [|a sep IH]; intros x H.
  - now exists x.
  - destruct x as [|b x]; simpl in H; [discriminate|].
    apply andb_true_iff in H as [Hab Hrest].
    apply N.eqb_eq in Hab; subst b.
    destruct (IH _ Hrest) as [rest ->].
    now exists rest.
Qed.

Lemma split_aux_skip (sep pre rest acc : jsstring) :
  split_aux sep (pre ++ rest) (length pre) acc = split_aux sep rest 0 acc.
Proof.
  induction pre as [|c pre IH]; simpl; auto.
Qed.

Lemma split_aux_match (a : N) (sep rest acc : jsstring) :
  split_aux (a :: sep) ((a :: sep) ++ rest) 0 acc
  = rev acc :: split_aux (a :: sep) rest 0 [].
Proof.
  pose proof (starts_with_app (a :: sep) rest) as Hs.
  change ((a :: sep) ++ rest) with (a :: (sep ++ rest)) in *.
  cbn [split_aux]. rewrite Hs.
  cbn [length]. rewrite Nat.sub_succ, Nat.sub_0_r.
  now rewrite split_aux_skip.
Qed.

Lemma split_aux_first (a : N) (sep p rest acc : jsstring) :
  first_at_end (a :: sep) p = true ->
  split_aux (a :: sep) (p ++ (a :: sep) ++ rest) 0 acc
  = (rev acc ++ p) :: split_aux (a :: sep) rest 0 [].
Proof.
  revert acc; induction p as [|c p IH]; intros acc H.
  - cbn [app]. rewrite app_nil_r. apply split_aux_match.
  - cbn [first_at_end] in H. apply andb_true_iff in H as [Hno Hp].
    apply negb_true_iff in Hno.
    assert (Hw : starts_with (a :: sep) (c :: (p ++ (a :: sep) ++ rest))
                 = false).
    { rewrite <- Hno.
      change (c :: (p ++ (a :: sep) ++ rest))
        with ((c :: p) ++ (a :: sep) ++ rest).
      rewrite app_assoc. apply starts_with_window.
      rewrite length_app. lia. }
    change ((c :: p) ++ (a :: sep) ++ rest)
      with (c :: (p ++ (a :: sep) ++ rest)).
    cbn [split_aux]. rewrite Hw, (IH (c :: acc) Hp).
    cbn [rev]. now rewrite <- app_assoc.
Qed.

Lemma split_aux_none (a : N) (sep s acc : jsstring) :
  occurs (a :: sep) s = false ->
  split_aux (a :: sep) s 0 acc = [rev acc ++ s].
Proof.
  revert acc; induction s as [|c s IH]; intros acc H.
  - cbn. now rewrite app_nil_r.
  - cbn [occurs] in H. apply orb_false_iff in H as [Hno Hs].
    cbn [split_aux]. rewrite Hno, (IH (c :: acc) Hs).
    cbn [rev]. now rewrite <- app_assoc.
Qed.

Lemma split_first (a : N) (sep p rest : jsstring) :
  first_at_end (a :: sep) p = true ->
  split (a :: sep) (p ++ (a :: sep) ++ rest) = p :: split (a :: sep) rest.
Proof.
  intros H. unfold split. now rewrite split_aux_first.
Qed.

Lemma split_none (a : N) (sep s : jsstring) :
  occurs (a :: sep) s = false -> split (a :: sep) s = [s].
Proof.
  intros H. unfold split. now rewrite split_aux_none.
Qed.

(** Every string either has no separator or starts with a piece closed by
    the first separator. *)
Lemma first_separator (a : N) (sep s : jsstring) :
  occurs (a :: sep) s = false
  \/ exists p rest, s = p ++ (a :: sep) ++ rest
                    /\ first_at_end (a :: sep) p = true.
Proof.
  induction s as [|c s IH].
  - now left.
  - destruct (starts_with (a :: sep) (c :: s)) eqn:E.
    + right. destruct (starts_with_inv _ _ E) as [rest Hrest].
      exists [], rest. now split.
    + destruct IH as [Hs | (p & rest & -> & Hp)].
      * left. cbn [occurs]. now rewrite E, Hs.
      * right. exists (c :: p), rest. split; [reflexivity|].
        cbn [first_at_end]. rewrite Hp, andb_true_r.
        apply negb_true_iff. rewrite <- E.
        change (c :: (p ++ (a :: sep) ++ rest))
          with ((c :: p) ++ (a :: sep) ++ rest).
        rewrite app_assoc. symmetry. apply starts_with_window.
        rewrite length_app. lia.
Qed.

Lemma split_not_nil (a : N) (sep s : jsstring) : split (a :: sep) s <> [].
Proof.
  destruct (first_separator a sep s) as [H | (p & rest & -> & H)].
  - now rewrite split_none.
  - now rewrite split_first.
Qed.

Lemma join_cons (sep p : jsstring) (rest : list jsstring) :
  rest <> [] -> join sep (p :: rest) = p ++ sep ++ join sep rest.
Proof.
  destruct rest; [congruence | reflexivity].
Qed.

(** [s.split(sep).join(sep)] is [s]. *)
Lemma join_split (a : N) (sep s : jsstring) :
  join (a :: sep) (split (a :: sep) s) = s.
Proof.
  remember (length s) as n eqn:Hn.
  revert s Hn; induction n as [n IH] using lt_wf_ind; intros s Hn.
  destruct (first_separator a sep s) as [H | (p & rest & -> & H)].
  - now rewrite split_none.
  - rewrite split_first by assumption.
    rewrite join_cons by apply split_not_nil.
    rewrite (IH (length rest)) with (s := rest); [reflexivity | | reflexivity].
    subst n. rewrite !length_app. cbn [length]. lia.
Qed.

(** ** Trimming *)

Lemma drop_while_suffix (f : N -> bool) (s : jsstring) :
  exists w, s = w ++ drop_while f s /\ forallb f w = true.
Proof.
  induction s as [|c s (w & Hw & Hall)]; cbn [drop_while].
  - now exists [].
  - destruct (f c) eqn:E.
    + exists (c :: w). cbn [app forallb]. rewrite E, Hall, <- Hw. now split.
    + now exists [].
Qed.

Lemma drop_while_idem (f : N -> bool) (s : jsstring) :
  drop_while f (drop_while f s) = drop_while f s.
Proof.
  induction s as [|c s IH]; cbn [drop_while]; [reflexivity|].
  destruct (f c) eqn:E; [assumption|].
  cbn [drop_while]. now rewrite E.
Qed.

(** A string is its trimmed form between two runs of white space. *)
Lemma trim_decompose (s : jsstring) :
  exists w1 w2, s = w1 ++ trim s ++ w2
                /\ forallb is_ws w1 = true /\ forallb is_ws w2 = true.
Proof.
  unfold trim, trimEnd, trimStart.
  destruct (drop_while_suffix is_ws s) as (w1 & H1 & Hw1).
  destruct (drop_while_suffix is_ws (rev (drop_while is_ws s)))
    as (w2 & H2 & Hw2).
  exists w1, (rev w2). repeat split; [|assumption|].
  - rewrite <- rev_app_distr, <- H2, rev_involutive. exact H1.
  - apply forallb_forall. intros c Hc. apply In_rev in Hc.
    now apply (proj1 (forallb_forall _ _) Hw2).
Qed.

Lemma trimmed_ident_chars (s : jsstring) (c : N) :
  is_ident (trim s) = true -> In c s ->
  is_ws c = true \/ ident_char c = true.
Proof.
  intros Hid Hin.
  destruct (trim_decompose s) as (w1 & w2 & Hs & Hw1 & Hw2).
  unfold is_ident in Hid. apply andb_true_iff in Hid as [_ Hall].
  rewrite Hs in Hin.
  apply in_app_or in Hin as [Hin | Hin];
    [| apply in_app_or in Hin as [Hin | Hin]].
  - left. now apply (proj1 (forallb_forall _ _) Hw1).
  - right. now apply (proj1 (forallb_forall _ _) Hall).
  - left. now apply (proj1 (forallb_forall _ _) Hw2).
Qed.

(** ** Pieces that a fence can follow *)

Lemma first_at_end_suffix (sep pre s : jsstring) :
  first_at_end sep (pre ++ s) = true -> first_at_end sep s = true.
Proof.
  induction pre as [|c pre IH]; intros H; [assumption|].
  cbn [app first_at_end] in H. apply andb_true_iff in H as [_ H]. auto.
Qed.

Lemma occurs_suffix (a : N) (sep pre s : jsstring) :
  occurs (a :: sep) (pre ++ s) = false -> occurs (a :: sep) s = false.
Proof.
  induction pre as [|c pre IH]; intros H; [assumption|].
  cbn [app occurs] in H. apply orb_false_iff in H as [_ H]. auto.
Qed.

Lemma first_at_end_no_backtick (x y : jsstring) :
  ~ In BACKTICK x ->
  first_at_end FENCE y = true -> first_at_end FENCE (x ++ y) = true.
Proof.
  intros Hx Hy. induction x as [|c x IH]; [assumption|].
  cbn [app first_at_end]. rewrite IH by (intros Hin; apply Hx; now right).
  rewrite andb_true_r. apply negb_true_iff.
  unfold FENCE at 1. cbn [app starts_with].
  destruct (N.eqb_spec BACKTICK c) as [E|]; [|reflexivity].
  exfalso. apply Hx. now left.
Qed.

Lemma first_at_end_LF (s : jsstring) :
  first_at_end FENCE s = true -> first_at_end FENCE (LF :: s) = true.
Proof.
  intros H. apply (first_at_end_no_backtick [LF] s); [|assumption].
  intros [E | []]. discriminate E.
Qed.

Lemma ends_with_backtick_cons (c d : N) (s : jsstring) :
  ends_with_backtick (c :: d :: s) = ends_with_backtick (d :: s).
Proof.
  unfold ends_with_backtick. cbn [rev].
  destruct (rev s ++ [d]) eqn:E; [|reflexivity].
  now apply app_eq_nil in E as [_ E].
Qed.

(** A piece without fence that does not end in a backtick is closed by the
    first fence after it. *)
Lemma fence_free_first_at_end (p : jsstring) :
  occurs FENCE p = false -> ends_with_backtick p = false ->
  first_at_end FENCE p = true.
Proof.
  induction p as [|c p IH]; intros Hocc Hend; [reflexivity|].
  cbn [occurs] in Hocc. apply orb_false_iff in Hocc as [Hst Hocc].
  cbn [first_at_end]. apply andb_true_iff. split.
  - apply negb_true_iff.
    destruct p as [|d [|e p]].
    + unfold ends_with_backtick in Hend. cbn [rev app] in Hend.
      unfold FENCE. cbn [app starts_with].
      now rewrite (N.eqb_sym BACKTICK c), Hend.
    + rewrite ends_with_backtick_cons in Hend.
      unfold ends_with_backtick in Hend. cbn [rev app] in Hend.
      unfold FENCE. cbn [app starts_with].
      now rewrite (N.eqb_sym BACKTICK d), Hend, andb_false_r.
    + rewrite <- Hst.
      apply starts_with_window. cbn [length FENCE]. lia.
  - apply IH; [assumption|].
    destruct p as [|d p]; [reflexivity|].
    now rewrite ends_with_backtick_cons in Hend.
Qed.

Lemma no_LF_first_at_end (s : jsstring) :
  existsb (N.eqb LF) s = false -> first_at_end [LF] s = true.
Proof.
  induction s as [|c s IH]; intros H; [reflexivity|].
  cbn [existsb] in H. apply orb_false_iff in H as [Hc Hs].
  cbn [first_at_end app starts_with]. now rewrite Hc, IH.
Qed.

(** ** The body of a code piece *)

Lemma split_lines_LF (s : jsstring) :
  split [LF] (LF :: s) = [] :: split [LF] s.
Proof.
  exact (split_first LF [] [] s eq_refl).
Qed.

Lemma code_body_untagged (part : jsstring) :
  is_ident (trim (hd [] (split [LF] part))) = false ->
  code_body part = strip_leading_newlines part.
Proof.
  intros H. unfold code_body. rewrite H, andb_false_r.
  now rewrite join_split.
Qed.

Lemma code_body_tagged (lang code : jsstring) :
  existsb (N.eqb LF) lang = false -> is_ident (trim lang) = true ->
  code_body (lang ++ [LF] ++ code) = strip_leading_newlines code.
Proof.
  intros Hnl Hid. unfold code_body.
  rewrite split_first by now apply no_LF_first_at_end.
  cbn [hd tl length Nat.eqb negb andb]. rewrite Hid.
  now rewrite join_split.
Qed.

Lemma code_body_stripped (part : jsstring) :
  strip_leading_newlines (code_body part) = code_body part.
Proof.
  unfold code_body, strip_leading_newlines. apply drop_while_idem.
Qed.

Lemma code_body_LF (body : jsstring) :
  code_body (LF :: body) = strip_leading_newlines body.
Proof.
  rewrite code_body_untagged.
  - reflexivity.
  - now rewrite split_lines_LF.
Qed.

(** The body is what is left of the piece after the language line and the
    leading newlines. *)
Lemma code_body_suffix (part : jsstring) :
  exists pre, part = pre ++ code_body part.
Proof.
  unfold code_body.
  set (lines := split [LF] part).
  assert (Hjoin : join [LF] lines = part) by apply join_split.
  destruct (negb (length lines =? 0) && is_ident (trim (hd [] lines))).
  - destruct lines as [|l0 [|l1 ls]].
    + exists part. cbn. now rewrite app_nil_r.
    + exists part. cbn. now rewrite app_nil_r.
    + destruct (drop_while_suffix (N.eqb LF) (join [LF] (tl (l0 :: l1 :: ls))))
        as (w & Hw & _).
      exists (l0 ++ [LF] ++ w). rewrite <- Hjoin.
      rewrite join_cons by discriminate.
      unfold strip_leading_newlines.
      cbn [tl] in *. rewrite Hw at 1. now rewrite <- !app_assoc.
  - destruct (drop_while_suffix (N.eqb LF) (join [LF] lines)) as (w & Hw & _).
    exists w. unfold strip_leading_newlines. now rewrite <- Hjoin.
Qed.

(** ** The segmenter *)

Lemma ident_no_backtick (lang : jsstring) :
  is_ident (trim lang) = true -> ~ In BACKTICK lang.
Proof.
  intros Hid Hin.
  destruct (trimmed_ident_chars lang BACKTICK Hid Hin) as [H | H];
    discriminate H.
Qed.

(** C4 (amended).  For a text [A + fence + lang\ncode + fence + B] in which
    the two fences written are the ones found ([A] and [code] hold no fence
    and do not end in a backtick, [B] holds no fence) and [lang] is one line
    whose trimmed form matches the identifier pattern, the segmenter emits
    the prose [A], one code segment whose body is [code] without its leading
    newlines, and the prose [B], in that order; the language line is
    dropped, and a prose piece whose trimmed form is empty is left out. *)
Theorem segment_fenced_block (A lang code B : jsstring) :
  occurs FENCE A = false -> ends_with_backtick A = false ->
  existsb (N.eqb LF) lang = false -> is_ident (trim lang) = true ->
  occurs FENCE code = false -> ends_with_backtick code = false ->
  occurs FENCE B = false ->
  segment (A ++ FENCE ++ (lang ++ [LF] ++ code) ++ FENCE ++ B)
  = (if nonempty (trim A) then [ProseSegment A] else [])
    ++ [CodeSegment (strip_leading_newlines code)]
    ++ (if nonempty (trim B) then [ProseSegment B] else []).
Proof.
  intros HA HA' Hnl Hid Hcode Hcode' HB.
  assert (Hpiece : first_at_end FENCE (lang ++ [LF] ++ code) = true).
  { apply first_at_end_no_backtick; [now apply ident_no_backtick|].
    apply first_at_end_LF. now apply fence_free_first_at_end. }
  unfold segment, FENCE.
  rewrite split_first by now apply fence_free_first_at_end.
  rewrite split_first by exact Hpiece.
  rewrite split_none by exact HB.
  cbn [length Nat.eqb forEach_parts Nat.even].
  rewrite code_body_tagged by assumption.
  now rewrite app_nil_r.
Qed.

(** C5 (amended).  Segmenting a fence, a newline, [foo], a newline and a
    closing fence yields exactly one code segment, whose body is [foo]
    followed by the newline that stood before the closing fence; and for any
    code piece whose first line, trimmed, does not match the identifier
    pattern, no line is dropped and only the leading newlines are stripped. *)
Theorem segment_untagged_block :
  segment (FENCE ++ [LF] ++ lit "foo" ++ [LF] ++ FENCE)
  = [CodeSegment (lit "foo" ++ [LF])]
  /\ forall part : jsstring,
       is_ident (trim (hd [] (split [LF] part))) = false ->
       code_body part = strip_leading_newlines part.
Proof.
  split.
  - vm_compute. reflexivity.
  - exact code_body_untagged.
Qed.

(** ** Joining the emitted segments and segmenting again *)

Lemma split_pieces (text : jsstring) : fence_pieces (split FENCE text).
Proof.
  remember (length text) as n eqn:Hn.
  revert text Hn; induction n as [n IH] using lt_wf_ind; intros text Hn.
  destruct (first_separator BACKTICK [BACKTICK; BACKTICK] text)
    as [H | (p & rest & -> & H)].
  - unfold FENCE. rewrite split_none by exact H. now constructor.
  - unfold FENCE. rewrite split_first by exact H.
    constructor; [exact H|].
    apply (IH (length rest)); [|reflexivity].
    subst n. rewrite !length_app. cbn [length]. lia.
Qed.

Lemma fence_pieces_not_nil (parts : list jsstring) :
  fence_pieces parts -> parts <> [].
Proof.
  intros [s H | p rest H1 H2]; discriminate.
Qed.

Lemma split_join_pieces (parts : list jsstring) :
  fence_pieces parts -> split FENCE (join FENCE parts) = parts.
Proof.
  induction 1 as [s H | p rest Hp Hrest IH].
  - cbn [join]. unfold FENCE. now apply split_none.
  - rewrite join_cons by now apply fence_pieces_not_nil.
    unfold FENCE in *. rewrite split_first by exact Hp.
    now rewrite IH.
Qed.

Lemma forEach_parts_SS (parts : list jsstring) (idx : nat) :
  forEach_parts parts (S (S idx)) = forEach_parts parts idx.
Proof.
  revert idx; induction parts as [|p rest IH]; intros idx; [reflexivity|].
  cbn [forEach_parts]. rewrite IH. reflexivity.
Qed.

Lemma joined_pieces_not_nil (segs : list Segment) : joined_pieces segs <> [].
Proof.
  destruct segs as [|[t | b] [|[t' | b'] rest]]; discriminate.
Qed.

Lemma strip_leading_newlines_fixed (code : jsstring) :
  starts_with [LF] code = false -> strip_leading_newlines code = code.
Proof.
  unfold strip_leading_newlines.
  destruct code as [|c code]; [reflexivity|].
  cbn [starts_with drop_while]. rewrite andb_true_r, N.eqb_sym.
  now intros ->.
Qed.

Lemma wf_code_body (body : jsstring) :
  wf_code body = true ->
  first_at_end FENCE body = true /\ code_body body = body.
Proof.
  unfold wf_code. rewrite !andb_true_iff, !negb_true_iff.
  intros [[[Hocc Hend] Hnl] Hid]. split.
  - now apply fence_free_first_at_end.
  - rewrite code_body_untagged by exact Hid.
    now apply strip_leading_newlines_fixed.
Qed.

Lemma round_trip_nil : pieces_round_trip [].
Proof.
  repeat split. now constructor.
Qed.

Lemma round_trip_prose (text : jsstring) :
  wf_prose text true = true -> pieces_round_trip [ProseSegment text].
Proof.
  unfold wf_prose. rewrite !andb_true_iff, negb_true_iff.
  intros [[Hne Hocc] _]. repeat split.
  - unfold join_segments. cbn [map concat segment_text joined_pieces join].
    apply app_nil_r.
  - now constructor.
  - cbn [joined_pieces forEach_parts Nat.even]. now rewrite Hne.
Qed.

Lemma round_trip_code (body : jsstring) (rest : list Segment) :
  wf_code body = true -> pieces_round_trip rest ->
  pieces_round_trip (CodeSegment body :: rest).
Proof.
  intros Hb (Hjoin & Hpieces & Hparts).
  destruct (wf_code_body body Hb) as [Hfirst Hbody].
  repeat split.
  - unfold join_segments in *.
    cbn [map concat segment_text joined_pieces].
    rewrite Hjoin, !join_cons
      by (try discriminate; apply joined_pieces_not_nil).
    now rewrite <- !app_assoc.
  - cbn [joined_pieces]. constructor; [reflexivity|].
    now constructor.
  - cbn [joined_pieces forEach_parts Nat.even app].
    now rewrite forEach_parts_SS, Hparts, Hbody.
Qed.

Lemma round_trip_prose_code (text body : jsstring) (rest : list Segment) :
  wf_prose text false = true -> wf_code body = true ->
  pieces_round_trip rest ->
  pieces_round_trip (ProseSegment text :: CodeSegment body :: rest).
Proof.
  unfold wf_prose. rewrite !andb_true_iff, !negb_true_iff.
  cbn [orb]. rewrite negb_true_iff.
  intros [[Hne Hocc] Hend] Hb (Hjoin & Hpieces & Hparts).
  destruct (wf_code_body body Hb) as [Hfirst Hbody].
  repeat split.
  - unfold join_segments in *.
    cbn [map concat segment_text joined_pieces].
    rewrite Hjoin, !join_cons
      by (try discriminate; apply joined_pieces_not_nil).
    now rewrite <- !app_assoc.
  - cbn [joined_pieces]. constructor.
    + now apply fence_free_first_at_end.
    + now constructor.
  - cbn [joined_pieces forEach_parts Nat.even app].
    now rewrite forEach_parts_SS, Hparts, Hbody, Hne.
Qed.

Lemma wf_slots_round_trip (segs : list Segment) :
  (wf_slots segs = true -> pieces_round_trip segs)
  /\ (forall text, wf_slots (ProseSegment text :: segs) = true ->
      pieces_round_trip (ProseSegment text :: segs)).
Proof.
  induction segs as [|sg segs [IH1 IH2]].
  - split; [intros _; exact round_trip_nil|].
    intros text H. now apply round_trip_prose.
  - split.
    + destruct sg as [text | body]; [apply IH2|].
      cbn [wf_slots]. rewrite andb_true_iff. intros [Hb Hrest].
      apply round_trip_code; auto.
    + intros text. destruct sg as [text' | body]; [discriminate|].
      cbn [wf_slots]. rewrite !andb_true_iff. intros [[Ht Hb] Hrest].
      apply round_trip_prose_code; auto.
Qed.

Lemma has_code_pieces (segs : list Segment) :
  has_code segs = true -> wf_slots segs = true ->
  (length (joined_pieces segs) =? 1) = false.
Proof.
  destruct segs as [|[t | b] [|[t' | b'] rest]]; try discriminate;
    reflexivity.
Qed.

(** C9 (amended).  For every well-formed sequence of segments -- one prose
    segment without fence, or a sequence with a code segment in which no
    two prose segments are neighbours, every prose segment is not blank,
    holds no fence and, unless it is the last, does not end in a backtick,
    and every code body holds no fence, does not end in a backtick, does
    not start with a newline and has a first line that, trimmed, does not
    match the identifier pattern -- writing the segments one after the
    other, code bodies between fences, and segmenting the text gives the
    sequence back. *)
Theorem segment_join_segments (segs : list Segment) :
  well_formed_segments segs = true ->
  segment (join_segments segs) = segs.
Proof.
  intros Hwf.
  assert (Hone : forall text, segs = [ProseSegment text] ->
                 occurs FENCE text = false ->
                 segment (join_segments segs) = segs).
  { intros text -> Hocc. unfold join_segments.
    cbn [map concat segment_text]. rewrite app_nil_r.
    unfold segment, FENCE in *. now rewrite split_none by exact Hocc. }
  assert (Hmany : has_code segs = true -> wf_slots segs = true ->
                  segment (join_segments segs) = segs).
  { intros Hcode Hslots.
    destruct (proj1 (wf_slots_round_trip segs) Hslots)
      as (Hjoin & Hpieces & Hparts).
    unfold segment. rewrite Hjoin, split_join_pieces by exact Hpieces.
    now rewrite has_code_pieces. }
  unfold well_formed_segments in Hwf.
  destruct segs as [|[text | body] rest].
  - discriminate.
  - destruct rest as [|sg rest].
    + apply (Hone text eq_refl). now apply negb_true_iff.
    + apply andb_true_iff in Hwf as [Hc Hs]. now apply Hmany.
  - apply andb_true_iff in Hwf as [Hc Hs]. now apply Hmany.
Qed.

(** ** The check result *)

(** C1 (amended).  For a raw response object without [summary],
    [violations], [fixed_code] and [unified_diff], the result shown has the
    placeholder [(summary U+C5C6 U+C74C)] as its summary, no violation (the
    violation area holds the single muted line), and the empty string as
    fixed code and as diff, never the text [undefined] or [null]. *)
Theorem renderCheckResult_no_fields (fields : list (jsstring * jsval))
        (p : Page) :
  lookup (lit "summary") fields = JUndefined ->
  lookup (lit "violations") fields = JUndefined ->
  lookup (lit "fixed_code") fields = JUndefined ->
  lookup (lit "unified_diff") fields = JUndefined ->
  exists p',
    renderCheckResult (JObj fields) p = (p', None)
    /\ resultSummary p' = NO_SUMMARY
    /\ vios_of (JObj fields) = []
    /\ violationsEl p'
       = [{| tagName := lit "div"; className := lit "muted";
             content := TextContent NO_VIOLATIONS |}]
    /\ fixedCodeEl p' = []
    /\ unifiedDiffEl p' = [].
Proof.
  intros Hs Hv Hf Hd.
  unfold renderCheckResult, vios_of.
  cbn [nullish member]. rewrite Hs, Hv, Hf, Hd.
  cbn [js_or truthy ToString length Nat.eqb].
  eexists. split; [reflexivity|]. cbn. repeat split; reflexivity.
Qed.






(** ** Requests *)

(** C6.  A response with a status outside 200..299 makes [postJson] throw an
    error whose message is the body text when that is not empty and [HTTP]
    followed by the status otherwise; a response with a success status whose
    body does not decode makes it return an object holding the body text
    under [raw], it does not throw. *)
Theorem postJson_outcome (status : N) (text : jsstring) :
  (((200 <=? status) && (status <=? 299))%N = false ->
   postJson (Responded status text)
   = inl (Error (if nonempty text then text
                 else lit "HTTP " ++ Number_toString (Z.of_N status))))
  /\ (((200 <=? status) && (status <=? 299))%N = true ->
      JSON_parse text = None ->
      postJson (Responded status text)
      = inr (JObj [(lit "raw", JStr text)])).
Proof.
  unfold postJson. split.
  - now intros ->.
  - now intros -> ->.
Qed.

(** X27.  Both endpoints show the failure [postJson] throws: the check
    panel in its summary line, the chat in a bubble of the assistant. *)
Lemma failure_is_shown (status : N) (text : jsstring) (clock : N) (p : Page) :
  ((200 <=? status) && (status <=? 299))%N = false ->
  let message :=
    if nonempty text then text
    else lit "HTTP " ++ Number_toString (Z.of_N status) in
  runCheck_settled (Responded status text) p
  = set_resultSummary (error_prefix ++ message) p
  /\ sendChat_settled (Responded status text) clock p
     = appendBubble (lit "assistant") (error_prefix ++ message) None clock p.
Proof.
  intros Hok message.
  assert (Hmsg : String_of_error (Error message) = message).
  { unfold String_of_error, Error. cbn [err_message err_name].
    subst message. now destruct text. }
  unfold runCheck_settled, sendChat_settled, bind, postJson.
  rewrite Hok. cbn [negb]. fold message. now rewrite Hmsg.
Qed.

(** C10.  With a chat box that is blank after trimming, [sendChat] returns
    the page as it was: no request, no bubble, the stored session and the
    box untouched.  With a code box that is blank after trimming, [runCheck]
    sends no request and changes nothing but the summary text, which becomes
    the prompt asking for code. *)
Theorem blank_input_sends_nothing (rnd : Dyadic) (clock date_now : N)
        (p : Page) :
  (nonempty (trim (chatInput p)) = false ->
   sendChat rnd clock date_now p = p)
  /\ (nonempty (trim (codeInput p)) = false ->
      runCheck rnd p = set_resultSummary CODE_REQUIRED p
      /\ requests (runCheck rnd p) = requests p
      /\ resultSummary (runCheck rnd p) = CODE_REQUIRED
      /\ violationsEl (runCheck rnd p) = violationsEl p
      /\ fixedCodeEl (runCheck rnd p) = fixedCodeEl p
      /\ unifiedDiffEl (runCheck rnd p) = unifiedDiffEl p
      /\ localStorage (runCheck rnd p) = localStorage p
      /\ sessionIdInput (runCheck rnd p) = sessionIdInput p).
Proof.
  split; intros H.
  - unfold sendChat. now rewrite H.
  - unfold runCheck. rewrite H. cbn. repeat split; reflexivity.
Qed.

(** ** The session id *)

Lemma str_eqb_refl (s : jsstring) : str_eqb s s = true.
Proof.
  unfold str_eqb. now destruct (list_eq_dec N.eq_dec s s).
Qed.

Lemma getItem_setItem (key value : jsstring) (st : Storage) :
  getItem key (setItem key value st) = Some value.
Proof.
  unfold setItem. cbn [getItem]. now rewrite str_eqb_refl.
Qed.

Lemma getSessionId_storage (rnd : Dyadic) (p : Page) :
  localStorage (snd (getSessionId rnd p))
  = setItem STORAGE_KEY (fst (getSessionId rnd p)) (localStorage p).
Proof.
  unfold getSessionId.
  now destruct (negb (nonempty (trim (sessionIdInput p)))).
Qed.

Lemma appendBubble_storage (role text : jsstring) (meta : option jsstring)
      (clock : N) (p : Page) :
  localStorage (appendBubble role text meta clock p) = localStorage p.
Proof. reflexivity. Qed.

Lemma forEach_vios_storage (vios : list jsval) (p : Page) :
  localStorage (fst (forEach_vios vios p)) = localStorage p.
Proof.
  revert p; induction vios as [|v rest IH]; intros p; cbn [forEach_vios].
  - reflexivity.
  - destruct (vio_box v); [reflexivity|]. now rewrite IH.
Qed.

Lemma renderCheckResult_storage (result : jsval) (p : Page) :
  localStorage (fst (renderCheckResult result p)) = localStorage p.
Proof.
  unfold renderCheckResult.
  destruct (nullish result); [reflexivity|].
  destruct (ToString (js_or _ (JStr NO_SUMMARY))); [|reflexivity].
  destruct (ToString (js_or (member result (lit "fixed_code")) _));
    [|reflexivity].
  destruct (ToString (js_or (member result (lit "unified_diff")) _));
    [|reflexivity].
  destruct (length (vios_of result) =? 0); [reflexivity|].
  now rewrite forEach_vios_storage.
Qed.

Lemma sendChat_storage (rnd : Dyadic) (clock date_now : N) (p : Page) :
  localStorage (sendChat rnd clock date_now p) = localStorage p
  \/ localStorage (sendChat rnd clock date_now p)
     = localStorage (snd (getSessionId rnd p)).
Proof.
  unfold sendChat.
  destruct (negb (nonempty (trim (chatInput p)))); [now left|].
  right. now destruct (getSessionId rnd p).
Qed.

Lemma runCheck_storage (rnd : Dyadic) (p : Page) :
  localStorage (runCheck rnd p) = localStorage p
  \/ localStorage (runCheck rnd p) = localStorage (snd (getSessionId rnd p)).
Proof.
  unfold runCheck.
  destruct (negb (nonempty (trim (codeInput p)))); [now left|].
  right. now destruct (getSessionId rnd p).
Qed.

(** C8 (amended).  The store entry of the session id is written by every
    call of [getSessionId], which stores the id it returns whether it was
    synthesized or found in the field, and by an edit of the field that
    leaves a non-empty trimmed value; no other event writes to the store.
    When the field is not empty after trimming, the id returned is the
    trimmed field, the field is left as it is and the entry is set to the
    trimmed field: the store is the same afterwards only if it already held
    that value. *)
Theorem localStorage_written_by (ev : Event) (p : Page) :
  (forall rnd : Dyadic,
      localStorage (snd (getSessionId rnd p))
      = setItem STORAGE_KEY (fst (getSessionId rnd p)) (localStorage p)
      /\ getItem STORAGE_KEY (localStorage (snd (getSessionId rnd p)))
         = Some (fst (getSessionId rnd p))
      /\ (nonempty (trim (sessionIdInput p)) = true ->
          fst (getSessionId rnd p) = trim (sessionIdInput p)
          /\ sessionIdInput (snd (getSessionId rnd p)) = sessionIdInput p
          /\ localStorage (snd (getSessionId rnd p))
             = setItem STORAGE_KEY (trim (sessionIdInput p)) (localStorage p)
          /\ (localStorage (snd (getSessionId rnd p)) = localStorage p ->
              getItem STORAGE_KEY (localStorage p)
              = Some (trim (sessionIdInput p)))))
  /\ (forall value : jsstring,
         localStorage (step (EditSessionId value) p)
         = if nonempty (trim value)
           then setItem STORAGE_KEY (trim value) (localStorage p)
           else localStorage p)
  /\ match ev with
     | EditSessionId _ => True
     | ClickSend rnd _ _ | KeydownChat _ _ _ rnd _ _ | ClickCheck rnd =>
         localStorage (step ev p) = localStorage p
         \/ localStorage (step ev p) = localStorage (snd (getSessionId rnd p))
     | _ => localStorage (step ev p) = localStorage p
     end.
Proof.
  split; [|split].
  - intros rnd. rewrite getSessionId_storage. split; [reflexivity|].
    split; [apply getItem_setItem|].
    intros Hfield.
    assert (Hid : fst (getSessionId rnd p) = trim (sessionIdInput p))
      by (unfold getSessionId; now rewrite Hfield).
    rewrite Hid. repeat split.
    + unfold getSessionId. now rewrite Hfield.
    + intros Hsame. rewrite <- Hsame. apply getItem_setItem.
  - intros value. cbn [step]. unfold sessionId_change.
    cbn [sessionIdInput set_sessionIdInput].
    now destruct (nonempty (trim value)).
  - destruct ev; cbn [step];
      first [ exact I | reflexivity
            | apply sendChat_storage | apply runCheck_storage | idtac ].
    + unfold chatInput_keydown.
      destruct (str_eqb key (lit "Enter") && (ctrlKey || metaKey));
        [apply sendChat_storage | now left].
    + unfold sendChat_settled.
      now destruct (out <- postJson res ;; agent_reply_text out).
    + unfold runCheck_settled.
      destruct (postJson res) as [err | out]; [reflexivity|].
      pose proof (renderCheckResult_storage out p) as H.
      destruct (renderCheckResult out p) as [p' [err|]]; exact H.
Qed.

(** Text without white space is its own trimmed form. *)
Lemma trim_no_ws (s : jsstring) :
  forallb (fun c => negb (is_ws c)) s = true -> trim s = s.
Proof.
  intros H.
  assert (Hdrop : forall x, forallb (fun c => negb (is_ws c)) x = true ->
                            drop_while is_ws x = x).
  { intros [|c x] Hx; [reflexivity|].
    cbn [forallb] in Hx. apply andb_true_iff in Hx as [Hc _].
    apply negb_true_iff in Hc. cbn [drop_while]. now rewrite Hc. }
  unfold trim, trimEnd, trimStart. rewrite (Hdrop s H).
  rewrite Hdrop; [apply rev_involutive|].
  apply forallb_forall. intros c Hc. apply In_rev in Hc.
  now apply (proj1 (forallb_forall _ _) H).
Qed.

Lemma hex_digit_cases (d : N) :
  hex_digit d = 0%N \/ lower_hex_char (hex_digit d) = true.
Proof.
  unfold hex_digit. generalize (N.to_nat d) as n. intros n.
  do 16 (destruct n as [|n]; [now right|]).
  left. now destruct n.
Qed.

Lemma frac_digits_no_ws (fuel : nat) (m e : N) :
  forallb (fun c => negb (is_ws c)) (frac_digits fuel m e) = true.
Proof.
  revert m; induction fuel as [|fuel IH]; intros m; [reflexivity|].
  cbn [frac_digits]. destruct (m =? 0)%N; [reflexivity|].
  cbn [forallb]. rewrite IH, andb_true_r.
  destruct (hex_digit_cases (m * 16 / 2 ^ e)) as [-> | H]; [reflexivity|].
  unfold lower_hex_char in H. unfold is_ws. cbn [existsb].
  repeat match goal with
         | |- context [(?a =? ?b)%N] =>
             destruct (N.eqb_spec a b) as [E|_];
             [rewrite E in H; discriminate H|]
         end.
  reflexivity.
Qed.

Lemma fresh_id_no_ws (rnd : Dyadic) :
  forallb (fun c => negb (is_ws c))
          (lit "demo-" ++ slice 2 10 (Number_toString16 rnd)) = true.
Proof.
  rewrite forallb_app. apply andb_true_iff. split; [reflexivity|].
  unfold slice, Number_toString16.
  destruct (numerator rnd =? 0)%N; [reflexivity|].
  change (skipn 2 (lit "0." ++ ?x)) with x.
  pose proof (frac_digits_no_ws (S (N.to_nat (exponent rnd)))
                                (numerator rnd) (exponent rnd)) as Hall.
  set (digits := frac_digits _ _ _) in *.
  apply forallb_forall. intros c Hc.
  apply (proj1 (forallb_forall _ _) Hall).
  rewrite <- (firstn_skipn (10 - 2) digits).
  apply in_or_app. left. exact Hc.
Qed.

(** Once an id has been synthesized, later calls return it again. *)
Lemma getSessionId_stable (rnd rnd' : Dyadic) (p : Page) :
  nonempty (trim (sessionIdInput p)) = false ->
  fst (getSessionId rnd' (snd (getSessionId rnd p)))
  = fst (getSessionId rnd p)
  /\ starts_with (lit "demo-") (fst (getSessionId rnd p)) = true.
Proof.
  intros H. unfold getSessionId at 2 3 4. rewrite H. cbn [negb fst snd].
  split; [|apply starts_with_app].
  unfold getSessionId.
  cbn [sessionIdInput set_localStorage set_sessionIdInput].
  rewrite trim_no_ws by apply fresh_id_no_ws.
  reflexivity.
Qed.

(** C3, where the code misses the claim: a random draw of one half prints
    as [0.8] in base 16, and the id synthesized from it has one hexadecimal
    character, not eight. *)
Theorem getSessionId_short_fraction :
  fst (getSessionId {| numerator := 1; exponent := 1 |} blank_page)
  = lit "demo-8"
  /\ is_demo_id (fst (getSessionId {| numerator := 1; exponent := 1 |}
                                   blank_page)) = false.
Proof.
  split; vm_compute; reflexivity.
Qed.

Lemma hex_digit_lower (d : N) :
  (d < 16)%N -> lower_hex_char (hex_digit d) = true.
Proof.
  intros Hd. unfold hex_digit.
  assert (Hn : N.to_nat d < 16) by lia.
  revert Hn. generalize (N.to_nat d) as n. intros n Hn.
  do 16 (destruct n as [|n]; [reflexivity|]).
  lia.
Qed.

Lemma frac_digits_lower_hex (fuel : nat) (m e : N) :
  (m < 2 ^ e)%N -> forallb lower_hex_char (frac_digits fuel m e) = true.
Proof.
  revert m; induction fuel as [|fuel IH]; intros m Hm; [reflexivity|].
  cbn [frac_digits]. destruct (m =? 0)%N; [reflexivity|].
  assert (Hpos : (2 ^ e <> 0)%N) by (apply N.pow_nonzero; discriminate).
  cbn [forallb]. apply andb_true_iff. split.
  - apply hex_digit_lower. apply N.Div0.div_lt_upper_bound; lia.
  - apply IH. now apply N.mod_lt.
Qed.

Lemma pow2_divide (a b : N) : (a <= b)%N -> (2 ^ a | 2 ^ b)%N.
Proof.
  intros H. exists (2 ^ (b - a))%N.
  rewrite <- N.pow_add_r. f_equal. lia.
Qed.

(** The expansion stops because nothing is left of the fraction, not
    because the fuel is used up: more fuel gives the same digits. *)
Lemma frac_digits_fuel (fuel : nat) :
  forall (m e j : N) (fuel' : nat),
    (j <= e)%N -> (2 ^ j | m)%N -> (m < 2 ^ e)%N ->
    (e - j <= 4 * N.of_nat fuel)%N -> fuel <= fuel' ->
    frac_digits fuel' m e = frac_digits fuel m e.
Proof.
  induction fuel as [|fuel IH]; intros m e j fuel' Hj Hdiv Hlt Hleft Hfuel.
  - assert (j = e) by lia. subst j.
    destruct Hdiv as [k Hk].
    assert (Hm : m = 0%N).
    { destruct (N.eq_dec k 0) as [-> | Hk0]; [lia|].
      remember (2 ^ e)%N as P. nia. }
    rewrite Hm. now destruct fuel'.
  - destruct fuel' as [|fuel']; [lia|].
    cbn [frac_digits]. destruct (m =? 0)%N; [reflexivity|].
    f_equal.
    assert (Hpos : (2 ^ e <> 0)%N) by (apply N.pow_nonzero; discriminate).
    apply (IH _ _ (N.min (j + 4) e)); try lia.
    + rewrite N.Div0.mod_eq. apply N.divide_sub_r.
      * apply N.divide_trans with (2 ^ (j + 4))%N;
          [apply pow2_divide; lia|].
        destruct Hdiv as [k Hk]. exists k.
        rewrite N.pow_add_r. change (2 ^ 4)%N with 16%N. lia.
      * apply N.divide_mul_l. apply pow2_divide. lia.
    + now apply N.mod_lt.
Qed.

Lemma Number_toString16_fuel (x : Dyadic) (extra : nat) :
  (numerator x < 2 ^ exponent x)%N ->
  frac_digits (extra + S (N.to_nat (exponent x)))
              (numerator x) (exponent x)
  = frac_digits (S (N.to_nat (exponent x))) (numerator x) (exponent x).
Proof.
  intros Hlt.
  apply (frac_digits_fuel (S (N.to_nat (exponent x))) _ _ 0%N);
    try lia.
  exists (numerator x). cbn. lia.
Qed.

(** X28.  When the random draw has eight hexadecimal digits or more after
    the point, the synthesized id has the shape [demo-] plus eight
    lower-case hexadecimal characters. *)
Lemma getSessionId_demo_id (rnd : Dyadic) (p : Page) :
  (numerator rnd < 2 ^ exponent rnd)%N ->
  8 <= length (frac_digits (S (N.to_nat (exponent rnd)))
                           (numerator rnd) (exponent rnd)) ->
  nonempty (trim (sessionIdInput p)) = false ->
  is_demo_id (fst (getSessionId rnd p)) = true.
Proof.
  intros Hlt Hlen Hblank.
  pose proof (frac_digits_lower_hex (S (N.to_nat (exponent rnd))) _ _ Hlt)
    as Hhex.
  unfold getSessionId. rewrite Hblank. cbn [negb fst].
  unfold is_demo_id. rewrite starts_with_app.
  change (skipn 5 (lit "demo-" ++ ?x)) with x.
  unfold slice, Number_toString16.
  set (digits := frac_digits _ _ _) in *.
  destruct (numerator rnd =? 0)%N eqn:E.
  - apply N.eqb_eq in E. subst digits. rewrite E in Hlen.
    cbn in Hlen. lia.
  - change (skipn 2 (lit "0." ++ digits)) with digits.
    rewrite length_firstn, Nat.min_l by exact Hlen.
    cbn [Nat.sub Nat.eqb andb].
    apply forallb_forall. intros c Hc.
    apply (proj1 (forallb_forall _ _) Hhex).
    rewrite <- (firstn_skipn 8 digits). apply in_or_app. now left.
Qed.

(** * Further properties of the script *)

(** ** escapeHtml *)

Lemma escapeHtml_cons (c : N) (str : jsstring) :
  escapeHtml (c :: str) = escape_char c ++ escapeHtml str.
Proof. reflexivity. Qed.

Lemma escape_char_no_markup (c : N) :
  forallb (fun d => negb (markup_char d)) (escape_char c) = true.
Proof.
  unfold escape_char.
  destruct (N.eqb_spec c 38); [reflexivity|].
  destruct (N.eqb_spec c 60); [reflexivity|].
  destruct (N.eqb_spec c 62); [reflexivity|].
  destruct (N.eqb_spec c 34); [reflexivity|].
  destruct (N.eqb_spec c 39); [reflexivity|].
  cbn [forallb]. unfold markup_char.
  repeat match goal with
         | |- context [(c =? ?k)%N] =>
             destruct (N.eqb_spec c k); [congruence|]
         end.
  reflexivity.
Qed.

(** X1.  The text [escapeHtml] returns holds no [<], no [>], no double
    quote and no single quote, whatever the input. *)
Theorem escapeHtml_no_markup (str : jsstring) :
  forallb (fun c => negb (markup_char c)) (escapeHtml str) = true.
Proof.
  induction str as [|c str IH]; [reflexivity|].
  rewrite escapeHtml_cons, forallb_app, IH, escape_char_no_markup.
  reflexivity.
Qed.

Lemma escape_char_not_nil (c : N) : escape_char c <> [].
Proof.
  unfold escape_char.
  repeat match goal with
         | |- context [if ?b then _ else _] => destruct b
         end; discriminate.
Qed.

(** No replacement is the start of another one followed by more text. *)
Lemma escape_char_prefix_free (c d : N) (x y : jsstring) :
  escape_char c ++ x = escape_char d ++ y -> c = d /\ x = y.
Proof.
  unfold escape_char.
  destruct (N.eqb_spec c 38); [|destruct (N.eqb_spec c 60);
    [|destruct (N.eqb_spec c 62); [|destruct (N.eqb_spec c 34);
      [|destruct (N.eqb_spec c 39)]]]];
  (destruct (N.eqb_spec d 38); [|destruct (N.eqb_spec d 60);
    [|destruct (N.eqb_spec d 62); [|destruct (N.eqb_spec d 34);
      [|destruct (N.eqb_spec d 39)]]]]);
  cbn; intros H; try discriminate H;
  injection H; intros; subst; try congruence; split; congruence.
Qed.

(** X2.  [escapeHtml] loses nothing: two texts with the same escaped form
    are the same text. *)
Theorem escapeHtml_injective (a b : jsstring) :
  escapeHtml a = escapeHtml b -> a = b.
Proof.
  revert b; induction a as [|c a IH]; intros [|d b] H.
  - reflexivity.
  - rewrite escapeHtml_cons in H. cbn [escapeHtml flat_map] in H.
    symmetry in H. apply app_eq_nil in H as [H _].
    now apply escape_char_not_nil in H.
  - rewrite escapeHtml_cons in H. cbn [escapeHtml flat_map] in H.
    apply app_eq_nil in H as [H _].
    now apply escape_char_not_nil in H.
  - rewrite !escapeHtml_cons in H.
    apply escape_char_prefix_free in H as [-> H].
    now rewrite (IH b H).
Qed.

(** ** The segmenter, continued *)

Lemma starts_with_app_r (sep x y : jsstring) :
  starts_with sep x = true -> starts_with sep (x ++ y) = true.
Proof.
  intros H. destruct (starts_with_inv _ _ H) as [rest ->].
  rewrite <- app_assoc. apply starts_with_app.
Qed.

Lemma first_at_end_occurs (a : N) (sep p : jsstring) :
  first_at_end (a :: sep) p = true -> occurs (a :: sep) p = false.
Proof.
  induction p as [|c p IH]; intros H; [reflexivity|].
  cbn [first_at_end] in H. apply andb_true_iff in H as [Hno Hp].
  apply negb_true_iff in Hno.
  cbn [occurs]. rewrite (IH Hp), orb_false_r.
  destruct (starts_with (a :: sep) (c :: p)) eqn:E; [|reflexivity].
  now rewrite (starts_with_app_r _ _ (a :: sep) E) in Hno.
Qed.

Lemma occurs_char (c : N) (s : jsstring) :
  occurs [c] s = existsb (N.eqb c) s.
Proof.
  induction s as [|d s IH]; [reflexivity|].
  cbn [occurs existsb starts_with]. now rewrite IH, andb_true_r.
Qed.

Lemma fence_pieces_fence_free (parts : list jsstring) :
  fence_pieces parts ->
  forall part, In part parts -> occurs FENCE part = false.
Proof.
  induction 1 as [s H | p rest Hp Hrest IH]; intros part [<- | Hin].
  - exact H.
  - destruct Hin.
  - now apply first_at_end_occurs.
  - now apply IH.
Qed.

Lemma one_piece_no_fence (text : jsstring) :
  (length (split FENCE text) =? 1) = true -> occurs FENCE text = false.
Proof.
  intros H.
  destruct (first_separator BACKTICK [BACKTICK; BACKTICK] text)
    as [Hno | (p & rest & -> & Hp)]; [exact Hno|].
  unfold FENCE in H. rewrite split_first in H by exact Hp.
  pose proof (split_not_nil BACKTICK [BACKTICK; BACKTICK] rest) as Hne.
  destruct (split (BACKTICK :: [BACKTICK; BACKTICK]) rest);
    [congruence | discriminate H].
Qed.

(** X3.  A text that holds no fence is shown as exactly one prose segment,
    the text itself, also when it is blank or empty. *)
Theorem segment_without_fence (text : jsstring) :
  occurs FENCE text = false -> segment text = [ProseSegment text].
Proof.
  intros H. unfold segment, FENCE. now rewrite split_none.
Qed.

(** What the loop emits is cut from the pieces: a prose segment is a piece,
    a code body is the end of a piece. *)
Lemma forEach_parts_payload (parts : list jsstring) (idx : nat)
      (sg : Segment) :
  In sg (forEach_parts parts idx) ->
  exists part pre, In part parts /\ part = pre ++ segment_payload sg.
Proof.
  revert idx; induction parts as [|p rest IH]; intros idx Hin; [destruct Hin|].
  cbn [forEach_parts] in Hin. apply in_app_or in Hin as [Hin | Hin].
  - destruct (Nat.even idx).
    + destruct (nonempty (trim p)); [|destruct Hin].
      destruct Hin as [<- | []]. exists p, []. split; [now left | reflexivity].
    + destruct Hin as [<- | []].
      destruct (code_body_suffix p) as [pre Hpre].
      exists p, pre. split; [now left | exact Hpre].
  - destruct (IH _ Hin) as (part & pre & Hpart & Heq).
    exists part, pre. split; [now right | exact Heq].
Qed.

(** X4.  No segment the segmenter emits holds a fence: neither a prose
    text nor a code body contains three backticks in a row. *)
Theorem segment_payload_fence_free (text : jsstring) (sg : Segment) :
  In sg (segment text) -> occurs FENCE (segment_payload sg) = false.
Proof.
  unfold segment. destruct (length (split FENCE text) =? 1) eqn:Hone.
  - intros [<- | []]. now apply one_piece_no_fence.
  - intros Hin.
    destruct (forEach_parts_payload _ _ _ Hin) as (part & pre & Hpart & Heq).
    pose proof (fence_pieces_fence_free _ (split_pieces text) part Hpart) as H.
    rewrite Heq in H. unfold FENCE in *. now apply occurs_suffix in H.
Qed.

Lemma forEach_parts_shape (parts : list jsstring) (idx : nat) (sg : Segment) :
  In sg (forEach_parts parts idx) ->
  match sg with
  | ProseSegment t => nonempty (trim t) = true
  | CodeSegment b => strip_leading_newlines b = b
  end.
Proof.
  revert idx; induction parts as [|p rest IH]; intros idx Hin; [destruct Hin|].
  cbn [forEach_parts] in Hin. apply in_app_or in Hin as [Hin | Hin].
  - destruct (Nat.even idx).
    + destruct (nonempty (trim p)) eqn:E; [|destruct Hin].
      now destruct Hin as [<- | []].
    + destruct Hin as [<- | []]. apply code_body_stripped.
  - now apply (IH (S idx)).
Qed.

(** X5.  In a text that holds a fence, every prose segment emitted is
    non-blank and no code body starts with a newline. *)
Theorem segment_with_fence_shape (text : jsstring) (sg : Segment) :
  occurs FENCE text = true -> In sg (segment text) ->
  match sg with
  | ProseSegment t => nonempty (trim t) = true
  | CodeSegment b => strip_leading_newlines b = b
  end.
Proof.
  intros Hocc. unfold segment.
  destruct (length (split FENCE text) =? 1) eqn:Hone.
  - apply one_piece_no_fence in Hone. congruence.
  - apply forEach_parts_shape.
Qed.

Lemma count_code_forEach (parts : list jsstring) (idx : nat) :
  count_code (forEach_parts parts idx)
  = Nat.div2 ((if Nat.even idx then 0 else 1) + length parts).
Proof.
  unfold count_code.
  revert idx; induction parts as [|p rest IH]; intros idx.
  - cbn. now destruct (Nat.even idx).
  - cbn [forEach_parts]. rewrite filter_app, length_app, IH.
    rewrite Nat.even_succ, <- Nat.negb_even.
    destruct (Nat.even idx); cbn [negb].
    + destruct (nonempty (trim p)); cbn [filter is_code length Nat.add];
        reflexivity.
    + cbn [filter is_code length Nat.add]. reflexivity.
Qed.

(** X6.  The number of code blocks shown is half the number of fences,
    rounded up: each pair of fences gives one block, and a last fence
    without partner still opens one. *)
Theorem segment_count_code (text : jsstring) :
  count_code (segment text) = Nat.div2 (S (fence_count text)).
Proof.
  unfold segment, fence_count.
  pose proof (split_not_nil BACKTICK [BACKTICK; BACKTICK] text) as Hne.
  fold FENCE in Hne.
  destruct (length (split FENCE text) =? 1) eqn:Hone.
  - apply Nat.eqb_eq in Hone. now rewrite Hone.
  - rewrite count_code_forEach. cbn [Nat.even Nat.add].
    destruct (split FENCE text); [congruence|].
    cbn [length]. now rewrite Nat.sub_succ, Nat.sub_0_r.
Qed.

(** X7.  A fenced piece that is a single line matching the identifier
    pattern after trimming is taken to be a language line: the body left is
    empty, and a text made of one such fenced word shows an empty block. *)
Theorem code_body_single_word (word : jsstring) :
  existsb (N.eqb LF) word = false -> is_ident (trim word) = true ->
  code_body word = []
  /\ segment (FENCE ++ word ++ FENCE) = [CodeSegment []].
Proof.
  intros Hnl Hid.
  assert (Hbody : code_body word = []).
  { unfold code_body. rewrite split_none by now rewrite occurs_char.
    cbn [hd length Nat.eqb negb andb]. now rewrite Hid. }
  split; [exact Hbody|].
  assert (Hpiece : first_at_end FENCE word = true).
  { rewrite <- (app_nil_r word).
    apply first_at_end_no_backtick; [now apply ident_no_backtick|reflexivity]. }
  assert (Hsplit : split FENCE (FENCE ++ word ++ FENCE) = [[]; word; []]).
  { unfold FENCE in *.
    etransitivity;
      [exact (split_first BACKTICK [BACKTICK; BACKTICK] []
                (word ++ [BACKTICK; BACKTICK; BACKTICK]) eq_refl)|].
    f_equal.
    etransitivity;
      [exact (split_first BACKTICK [BACKTICK; BACKTICK] word [] Hpiece)|].
    reflexivity. }
  unfold segment. rewrite Hsplit.
  cbn [length Nat.eqb forEach_parts Nat.even trim trimStart trimEnd
       drop_while rev nonempty app].
  now rewrite Hbody.
Qed.

(** ** The session id, continued *)

Lemma drop_while_head (f : N -> bool) (s : jsstring) :
  match drop_while f s with
  | [] => True
  | c :: _ => f c = false
  end.
Proof.
  induction s as [|c s IH]; cbn [drop_while]; [exact I|].
  destruct (f c) eqn:E; [exact IH | exact E].
Qed.

Lemma drop_while_fixed (f : N -> bool) (s : jsstring) :
  match s with [] => True | c :: _ => f c = false end ->
  drop_while f s = s.
Proof.
  destruct s as [|c s]; [reflexivity|].
  intros H. cbn [drop_while]. now rewrite H.
Qed.

(** Trimming twice is trimming once. *)
Lemma trim_idempotent (s : jsstring) : trim (trim s) = trim s.
Proof.
  unfold trim, trimEnd, trimStart.
  set (t := drop_while is_ws s).
  set (u := rev (drop_while is_ws (rev t))).
  assert (Hu : drop_while is_ws u = u).
  { apply drop_while_fixed.
    destruct (drop_while_suffix is_ws (rev t)) as (w & Hw & _).
    assert (Ht : t = u ++ rev w).
    { unfold u. rewrite <- rev_app_distr, <- Hw. now rewrite rev_involutive. }
    pose proof (drop_while_head is_ws s) as Hhead. fold t in Hhead.
    destruct u as [|c u']; [exact I|].
    rewrite Ht in Hhead. exact Hhead. }
  rewrite Hu. unfold u at 1. rewrite rev_involutive, drop_while_idem.
  reflexivity.
Qed.

Lemma fresh_id_trimmed (rnd : Dyadic) :
  trim (lit "demo-" ++ slice 2 10 (Number_toString16 rnd))
  = lit "demo-" ++ slice 2 10 (Number_toString16 rnd).
Proof.
  apply trim_no_ws, fresh_id_no_ws.
Qed.

Lemma getSessionId_cases (rnd : Dyadic) (p : Page) :
  (nonempty (trim (sessionIdInput p)) = true
   /\ getSessionId rnd p
      = (trim (sessionIdInput p),
         set_localStorage
           (setItem STORAGE_KEY (trim (sessionIdInput p)) (localStorage p)) p))
  \/ (nonempty (trim (sessionIdInput p)) = false
      /\ getSessionId rnd p
         = (lit "demo-" ++ slice 2 10 (Number_toString16 rnd),
            set_localStorage
              (setItem STORAGE_KEY
                       (lit "demo-" ++ slice 2 10 (Number_toString16 rnd))
                       (localStorage p))
              (set_sessionIdInput
                 (lit "demo-" ++ slice 2 10 (Number_toString16 rnd)) p))).
Proof.
  unfold getSessionId.
  destruct (nonempty (trim (sessionIdInput p))); [left | right];
    split; reflexivity.
Qed.

Lemma getSessionId_id (rnd : Dyadic) (p : Page) :
  nonempty (fst (getSessionId rnd p)) = true
  /\ trim (fst (getSessionId rnd p)) = fst (getSessionId rnd p)
  /\ trim (sessionIdInput (snd (getSessionId rnd p)))
     = fst (getSessionId rnd p).
Proof.
  destruct (getSessionId_cases rnd p) as [[Hne ->] | [Hne ->]];
    cbn [fst snd sessionIdInput set_localStorage set_sessionIdInput].
  - split; [exact Hne|]. split; [apply trim_idempotent | reflexivity].
  - split; [reflexivity|]. split; apply fresh_id_trimmed.
Qed.

(** X8.  The id [getSessionId] returns is never empty and has no white
    space around it; afterwards the field, trimmed, and the store entry both
    hold that id. *)
Theorem getSessionId_result (rnd : Dyadic) (p : Page) :
  nonempty (fst (getSessionId rnd p)) = true
  /\ trim (fst (getSessionId rnd p)) = fst (getSessionId rnd p)
  /\ trim (sessionIdInput (snd (getSessionId rnd p)))
     = fst (getSessionId rnd p)
  /\ getItem STORAGE_KEY (localStorage (snd (getSessionId rnd p)))
     = Some (fst (getSessionId rnd p)).
Proof.
  destruct (getSessionId_id rnd p) as (H1 & H2 & H3).
  repeat split; try assumption.
  rewrite getSessionId_storage. apply getItem_setItem.
Qed.

Lemma removeItem_idempotent (key : jsstring) (st : Storage) :
  removeItem key (removeItem key st) = removeItem key st.
Proof.
  induction st as [|[k v] st IH]; [reflexivity|].
  cbn [removeItem]. destruct (str_eqb k key) eqn:E; [exact IH|].
  cbn [removeItem]. now rewrite E, IH.
Qed.

Lemma setItem_twice (key value : jsstring) (st : Storage) :
  setItem key value (setItem key value st) = setItem key value st.
Proof.
  unfold setItem. cbn [removeItem].
  now rewrite str_eqb_refl, removeItem_idempotent.
Qed.

(** X9.  [getSessionId] is idempotent: called again, with any random draw,
    it returns the same id and leaves the whole page as the first call left
    it. *)
Theorem getSessionId_idempotent (rnd rnd' : Dyadic) (p : Page) :
  getSessionId rnd' (snd (getSessionId rnd p))
  = (fst (getSessionId rnd p), snd (getSessionId rnd p)).
Proof.
  destruct (getSessionId_id rnd p) as (Hne & _ & Hfield).
  destruct (getSessionId_cases rnd' (snd (getSessionId rnd p)))
    as [[_ ->] | [Habs _]].
  - rewrite Hfield. f_equal.
    rewrite getSessionId_storage.
    destruct (getSessionId_cases rnd p) as [[_ ->] | [_ ->]];
      cbn [fst snd localStorage set_localStorage set_sessionIdInput];
      rewrite setItem_twice; reflexivity.
  - rewrite Hfield in Habs. congruence.
Qed.

(** X10.  What [getSessionId] stores is what [loadSessionId] restores: on
    any page whose store is the one a call of [getSessionId] left, start-up
    puts the id that call returned into the field. *)
Theorem loadSessionId_restores (rnd rnd' : Dyadic) (p q : Page) :
  localStorage q = localStorage (snd (getSessionId rnd p)) ->
  sessionIdInput (loadSessionId rnd' q) = fst (getSessionId rnd p).
Proof.
  intros Hst. unfold loadSessionId.
  rewrite Hst, getSessionId_storage, getItem_setItem.
  destruct (getSessionId_id rnd p) as (Hne & _ & _).
  destruct (fst (getSessionId rnd p)); [discriminate Hne | reflexivity].
Qed.

Lemma str_eqb_neq (a b : jsstring) : a <> b -> str_eqb a b = false.
Proof.
  intros H. unfold str_eqb.
  now destruct (list_eq_dec N.eq_dec a b).
Qed.

Lemma getItem_removeItem_other (key other : jsstring) (st : Storage) :
  other <> key -> getItem other (removeItem key st) = getItem other st.
Proof.
  intros Hneq. induction st as [|[k v] st IH]; [reflexivity|].
  cbn [removeItem getItem].
  destruct (str_eqb k key) eqn:E.
  - unfold str_eqb in E.
    destruct (list_eq_dec N.eq_dec k key) as [-> |]; [|discriminate E].
    rewrite str_eqb_neq by congruence. exact IH.
  - cbn [getItem]. now rewrite IH.
Qed.

Lemma getItem_setItem_other (key other value : jsstring) (st : Storage) :
  other <> key -> getItem other (setItem key value st) = getItem other st.
Proof.
  intros Hneq. unfold setItem. cbn [getItem].
  rewrite str_eqb_neq by congruence.
  now apply getItem_removeItem_other.
Qed.

(** Every event leaves the store as it is or sets the session id entry to
    an id that is non-empty and trimmed. *)
Lemma step_storage (ev : Event) (p : Page) :
  localStorage (step ev p) = localStorage p
  \/ exists sid,
      nonempty sid = true /\ trim sid = sid
      /\ localStorage (step ev p) = setItem STORAGE_KEY sid (localStorage p).
Proof.
  assert (Hget : forall rnd q,
             localStorage q = localStorage (snd (getSessionId rnd p)) ->
             exists sid,
               nonempty sid = true /\ trim sid = sid
               /\ localStorage q = setItem STORAGE_KEY sid (localStorage p)).
  { intros rnd q ->. exists (fst (getSessionId rnd p)).
    destruct (getSessionId_id rnd p) as (H1 & H2 & _).
    repeat split; try assumption. apply getSessionId_storage. }
  destruct ev; cbn [step]; try (now left).
  - destruct (sendChat_storage rnd clock date_now p) as [H | H];
      [now left | right; now apply (Hget rnd)].
  - unfold chatInput_keydown.
    destruct (str_eqb key (lit "Enter") && (ctrlKey || metaKey));
      [|now left].
    destruct (sendChat_storage rnd clock date_now p) as [H | H];
      [now left | right; now apply (Hget rnd)].
  - destruct (runCheck_storage rnd p) as [H | H];
      [now left | right; now apply (Hget rnd)].
  - unfold sessionId_change. cbn [sessionIdInput set_sessionIdInput].
    destruct (nonempty (trim value)) eqn:E; [|now left].
    right. exists (trim value).
    repeat split; [exact E | apply trim_idempotent].
  - left. unfold sendChat_settled.
    now destruct (out <- postJson res ;; agent_reply_text out).
  - left. unfold runCheck_settled.
    destruct (postJson res) as [err | out]; [reflexivity|].
    pose proof (renderCheckResult_storage out p) as H.
    destruct (renderCheckResult out p) as [p' [err|]]; exact H.
Qed.

(** X11.  The script only ever stores ids that are non-empty and trimmed:
    if the stored id is of that kind (or there is none), it still is after
    any sequence of events. *)
Theorem stored_id_stays_ok (evs : list Event) (p : Page) :
  stored_id_ok (localStorage p) -> stored_id_ok (localStorage (run evs p)).
Proof.
  unfold run. revert p; induction evs as [|ev evs IH]; intros p Hok;
    [exact Hok|].
  cbn [fold_left]. apply IH.
  destruct (step_storage ev p) as [-> | (sid & Hne & Htrim & ->)];
    [exact Hok|].
  unfold stored_id_ok. rewrite getItem_setItem. now split.
Qed.

(** X12.  No event touches an entry of [localStorage] other than the one
    of the session id. *)
Theorem other_keys_untouched (evs : list Event) (p : Page) (key : jsstring) :
  key <> STORAGE_KEY ->
  getItem key (localStorage (run evs p)) = getItem key (localStorage p).
Proof.
  intros Hkey. unfold run.
  revert p; induction evs as [|ev evs IH]; intros p; [reflexivity|].
  cbn [fold_left]. rewrite IH.
  destruct (step_storage ev p) as [-> | (sid & _ & _ & ->)];
    [reflexivity|].
  now apply getItem_setItem_other.
Qed.

(** ** Requests and the transcript *)

Lemma page_eta (p : Page) :
  set_violationsEl (violationsEl p)
    (set_unifiedDiffEl (unifiedDiffEl p)
       (set_fixedCodeEl (fixedCodeEl p)
          (set_resultSummary (resultSummary p) p))) = p.
Proof. now destruct p. Qed.

(** The page on the left differs from [p] in the four result elements only:
    take what it holds there as the witnesses. *)
Ltac result_frame :=
  match goal with
  | |- exists s v f d, ?lhs = _ =>
      exists (resultSummary lhs), (violationsEl lhs), (fixedCodeEl lhs),
             (unifiedDiffEl lhs);
      reflexivity
  end.

Lemma forEach_vios_frame (vios : list jsval) (p : Page) :
  exists boxes,
    fst (forEach_vios vios p)
    = set_violationsEl (violationsEl p ++ boxes) p.
Proof.
  revert p; induction vios as [|v rest IH]; intros p; cbn [forEach_vios].
  - exists []. rewrite app_nil_r. now destruct p.
  - destruct (vio_box v) as [err | box].
    + exists []. rewrite app_nil_r. now destruct p.
    + destruct (IH (set_violationsEl (violationsEl p ++ [box]) p))
        as [boxes ->].
      exists (box :: boxes).
      cbn [violationsEl set_violationsEl]. now rewrite <- app_assoc.
Qed.

(** [renderCheckResult] writes to the four result elements and to nothing
    else. *)
Lemma renderCheckResult_frame (result : jsval) (p : Page) :
  exists s v f d,
    fst (renderCheckResult result p)
    = set_violationsEl v
        (set_unifiedDiffEl d (set_fixedCodeEl f (set_resultSummary s p))).
Proof.
  unfold renderCheckResult.
  destruct (nullish result).
  - exists (resultSummary p), (violationsEl p), (fixedCodeEl p),
           (unifiedDiffEl p).
    symmetry. apply page_eta.
  - destruct (ToString (js_or _ (JStr NO_SUMMARY))).
    2:{ exists (resultSummary p), (violationsEl p), (fixedCodeEl p),
               (unifiedDiffEl p).
        symmetry. apply page_eta. }
    destruct (ToString (js_or (member result (lit "fixed_code")) _));
      [|cbn [fst]; result_frame].
    destruct (ToString (js_or (member result (lit "unified_diff")) _));
      [|cbn [fst]; result_frame].
    destruct (length (vios_of result) =? 0).
    + cbn [fst]. result_frame.
    + match goal with
      | |- context [forEach_vios ?l ?q] =>
          destruct (forEach_vios_frame l q) as [boxes ->]
      end.
      result_frame.
Qed.

Lemma runCheck_settled_frame (res : FetchResult) (p : Page) :
  exists s v f d,
    runCheck_settled res p
    = set_violationsEl v
        (set_unifiedDiffEl d (set_fixedCodeEl f (set_resultSummary s p))).
Proof.
  unfold runCheck_settled.
  destruct (postJson res) as [err | out].
  - exists (error_prefix ++ String_of_error err), (violationsEl p),
           (fixedCodeEl p), (unifiedDiffEl p).
    now destruct p.
  - destruct (renderCheckResult_frame out p) as (s & v & f & d & H).
    destruct (renderCheckResult out p) as [p' [err|]]; cbn [fst] in H;
      subst p'; result_frame.
Qed.

Lemma getSessionId_frame (rnd : Dyadic) (p : Page) :
  exists field st,
    snd (getSessionId rnd p)
    = set_localStorage st (set_sessionIdInput field p).
Proof.
  destruct (getSessionId_cases rnd p) as [[_ ->] | [_ ->]]; cbn [snd].
  - exists (sessionIdInput p). eexists. now destruct p.
  - do 2 eexists. reflexivity.
Qed.

(** X13.  An event sends at most one request, and only a send in the chat
    or a click on the check button sends one: it goes by POST to [/agent],
    respectively [/check], and is put after the requests sent before, which
    are left as they were.  In particular a settled request is never sent
    again. *)
Theorem requests_append_only (ev : Event) (p : Page) :
  requests (step ev p) = requests p
  \/ exists r,
      requests (step ev p) = requests p ++ [r]
      /\ req_method r = lit "POST"
      /\ match ev with
         | ClickSend _ _ _ | KeydownChat _ _ _ _ _ _ =>
             req_url r = lit "/agent"
         | ClickCheck _ => req_url r = lit "/check"
         | _ => False
         end.
Proof.
  assert (Hsend : forall rnd clock date_now,
             requests (sendChat rnd clock date_now p) = requests p
             \/ exists r,
                 requests (sendChat rnd clock date_now p) = requests p ++ [r]
                 /\ req_method r = lit "POST"
                 /\ req_url r = lit "/agent").
  { intros rnd clock date_now. unfold sendChat.
    destruct (negb (nonempty (trim (chatInput p)))); [now left|].
    right. destruct (getSessionId_frame rnd p) as (field & st & H).
    destruct (getSessionId rnd p) as [sid p1]. cbn [snd] in H. subst p1.
    eexists. repeat split. }
  destruct ev; cbn [step]; try (now left).
  - exact (Hsend rnd clock date_now).
  - unfold chatInput_keydown.
    destruct (str_eqb key (lit "Enter") && (ctrlKey || metaKey));
      [exact (Hsend rnd clock date_now) | now left].
  - unfold runCheck.
    destruct (negb (nonempty (trim (codeInput p)))); [now left|].
    right. destruct (getSessionId_frame rnd p) as (field & st & H).
    destruct (getSessionId rnd p) as [sid p1]. cbn [snd] in H. subst p1.
    eexists. repeat split.
  - left. unfold sessionId_change.
    now destruct
      (nonempty (trim (sessionIdInput (set_sessionIdInput value p)))).
  - left. unfold sendChat_settled.
    now destruct (out <- postJson res ;; agent_reply_text out).
  - left. destruct (runCheck_settled_frame res p) as (s & v & f & d & ->).
    reflexivity.
Qed.

(** X14.  The transcript only grows: every event but the clear button
    leaves the bubbles shown in place and puts at most two new ones after
    them; a settled agent call puts exactly one.  The clear button leaves
    exactly one bubble. *)
Theorem chatLog_append_only (ev : Event) (p : Page) :
  match ev with
  | ClickClear _ => length (chatLog (step ev p)) = 1
  | AgentSettled _ _ | ClickToChat _ =>
      exists b, chatLog (step ev p) = chatLog p ++ [b]
  | _ =>
      exists added,
        chatLog (step ev p) = chatLog p ++ added /\ length added <= 2
  end.
Proof.
  assert (Hsend : forall rnd clock date_now,
             exists added,
               chatLog (sendChat rnd clock date_now p) = chatLog p ++ added
               /\ length added <= 2).
  { intros rnd clock date_now. unfold sendChat.
    destruct (negb (nonempty (trim (chatInput p)))).
    - exists []. rewrite app_nil_r. split; [reflexivity | cbn; lia].
    - destruct (getSessionId_frame rnd p) as (field & st & H).
      destruct (getSessionId rnd p) as [sid p1]. cbn [snd] in H. subst p1.
      eexists. split.
      + cbn [fetch appendBubble set_chatLog set_requests set_tabs
             set_chatInput chatLog set_localStorage set_sessionIdInput].
        rewrite <- app_assoc. reflexivity.
      + cbn. lia. }
  assert (Hsame : forall q : Page,
             chatLog q = chatLog p ->
             exists added, chatLog q = chatLog p ++ added /\ length added <= 2).
  { intros q ->. exists []. rewrite app_nil_r.
    split; [reflexivity | cbn; lia]. }
  destruct ev; cbn [step]; try (apply Hsame; reflexivity).
  - apply Hsend.
  - unfold chatInput_keydown.
    destruct (str_eqb key (lit "Enter") && (ctrlKey || metaKey));
      [apply Hsend | now apply Hsame].
  - reflexivity.
  - apply Hsame. unfold runCheck.
    destruct (negb (nonempty (trim (codeInput p)))); [reflexivity|].
    destruct (getSessionId_frame rnd p) as (field & st & H).
    destruct (getSessionId rnd p) as [sid p1]. cbn [snd] in H. now subst p1.
  - eexists. reflexivity.
  - apply Hsame. unfold sessionId_change.
    now destruct
      (nonempty (trim (sessionIdInput (set_sessionIdInput value p)))).
  - unfold sendChat_settled.
    destruct (out <- postJson res ;; agent_reply_text out);
      eexists; reflexivity.
  - apply Hsame.
    destruct (runCheck_settled_frame res p) as (s & v & f & d & ->).
    reflexivity.
Qed.

(** X15.  With a chat box that is not blank, [sendChat] sends exactly one
    request, to [/agent], carrying the session id of [getSessionId] (which
    is non-empty and trimmed), the message exactly as typed, not trimmed,
    and [debug: false]; it empties the box, gives it the focus, and shows
    the message and then the waiting bubble, whose label is [loading-]
    followed by the time. *)
Theorem sendChat_sends (rnd : Dyadic) (clock date_now : N) (p : Page) :
  nonempty (trim (chatInput p)) = true ->
  let sid := fst (getSessionId rnd p) in
  let p' := sendChat rnd clock date_now p in
  requests p'
  = requests p
    ++ [postJson_request (lit "/agent")
          (JObj [(lit "session_id", JStr sid);
                 (lit "input", JStr (chatInput p));
                 (lit "debug", JBool false)])]
  /\ nonempty sid = true /\ trim sid = sid
  /\ chatInput p' = [] /\ focus p' = FocusChatInput
  /\ localStorage p' = setItem STORAGE_KEY sid (localStorage p)
  /\ exists user_meta loading,
      chatLog p'
      = chatLog p
        ++ [{| wrap_className := lit "bubble user";
               wrap_children :=
                 user_meta :: map render_segment (segment (chatInput p)) |};
            loading]
      /\ wrap_className loading = lit "bubble assistant"
      /\ hd_error (wrap_children loading)
         = Some {| tagName := lit "div"; className := lit "meta";
                   content :=
                     InnerHTML
                       (lit "<span>AI</span><span class=" ++ DQ ++ lit "pill"
                        ++ DQ ++ lit ">"
                        ++ escapeHtml
                             (lit "loading-"
                              ++ Number_toString (Z.of_N date_now))
                        ++ lit "</span>") |}.
Proof.
  intros Hmsg sid p'.
  destruct (getSessionId_id rnd p) as (Hne & Htrim & _).
  pose proof (getSessionId_storage rnd p) as Hst.
  destruct (getSessionId_frame rnd p) as (field & st & Hframe).
  subst sid p'. unfold sendChat. rewrite Hmsg. cbn [negb].
  destruct (getSessionId rnd p) as [sid p1].
  cbn [fst snd] in *. subst p1.
  cbn [localStorage set_localStorage] in Hst. subst st.
  repeat split; try assumption.
  do 2 eexists. split; [|split].
  - cbn [fetch appendBubble set_chatLog set_requests set_tabs
         set_chatInput chatLog set_localStorage set_sessionIdInput].
    rewrite <- app_assoc. reflexivity.
  - reflexivity.
  - reflexivity.
Qed.

(** X16.  With a code box that is not blank, [runCheck] sends exactly one
    request, to [/check], carrying the session id of [getSessionId], the
    language [python], the code exactly as typed and the two check boxes;
    it shows the running notice and empties the violations, the fixed code
    and the diff. *)
Theorem runCheck_sends (rnd : Dyadic) (p : Page) :
  nonempty (trim (codeInput p)) = true ->
  let sid := fst (getSessionId rnd p) in
  let p' := runCheck rnd p in
  requests p'
  = requests p
    ++ [postJson_request (lit "/check")
          (JObj [(lit "session_id", JStr sid);
                 (lit "language", JStr (lit "python"));
                 (lit "code", JStr (codeInput p));
                 (lit "auto_fix", JBool (autoFix p));
                 (lit "include_diff", JBool (includeDiff p))])]
  /\ nonempty sid = true /\ trim sid = sid
  /\ resultSummary p' = RUNNING
  /\ violationsEl p' = [] /\ fixedCodeEl p' = [] /\ unifiedDiffEl p' = []
  /\ codeInput p' = codeInput p /\ chatLog p' = chatLog p
  /\ localStorage p' = setItem STORAGE_KEY sid (localStorage p).
Proof.
  intros Hcode sid p'.
  destruct (getSessionId_id rnd p) as (Hne & Htrim & _).
  pose proof (getSessionId_storage rnd p) as Hst.
  destruct (getSessionId_frame rnd p) as (field & st & Hframe).
  subst sid p'. unfold runCheck. rewrite Hcode. cbn [negb].
  destruct (getSessionId rnd p) as [sid p1].
  cbn [fst snd] in *. subst p1.
  cbn [localStorage set_localStorage] in Hst. subst st.
  repeat split; assumption.
Qed.

(** X17.  What the chat shows for a settled agent call with a success
    status: the [output] of the decoded reply when that is a non-empty
    string; the whole reply, printed with indentation, when there is no
    [output]; and the object holding the raw body when the body does not
    decode. *)
Theorem sendChat_settled_reply (status : N) (text : jsstring) (clock : N)
        (p : Page) :
  ((200 <=? status) && (status <=? 299))%N = true ->
  (forall out s,
      JSON_parse text = Some out ->
      member out (lit "output") = JStr s -> s <> [] ->
      sendChat_settled (Responded status text) clock p
      = appendBubble (lit "assistant") s None clock p)
  /\ (forall out,
         JSON_parse text = Some out -> nullish out = false ->
         truthy (member out (lit "output")) = false ->
         sendChat_settled (Responded status text) clock p
         = appendBubble (lit "assistant") (JSON_stringify 2 out) None clock p)
  /\ (JSON_parse text = None ->
      sendChat_settled (Responded status text) clock p
      = appendBubble (lit "assistant")
                     (JSON_stringify 2 (JObj [(lit "raw", JStr text)]))
                     None clock p).
Proof.
  intros Hok. unfold sendChat_settled, postJson, bind, agent_reply_text.
  rewrite Hok. cbn [negb]. repeat split.
  - intros out s -> Hout Hs.
    destruct out; try discriminate Hout. cbn [nullish].
    unfold js_or. rewrite Hout. cbn [truthy].
    destruct s; [congruence | reflexivity].
  - intros out -> Hnull Hfalsy. rewrite Hnull.
    unfold js_or. now rewrite Hfalsy.
  - intros ->. reflexivity.
Qed.

(** ** The check result, continued *)

Lemma bind_inr {A B : Type} (r : Result A) (k : A -> Result B) (b : B) :
  bind r k = inr b -> exists a, r = inr a /\ k a = inr b.
Proof.
  destruct r as [e | a]; cbn [bind]; [discriminate|].
  intros H. now exists a.
Qed.

Lemma escapeHtml_val_inr (x : jsval) (s : jsstring) :
  escapeHtml_val x = inr s -> exists t, x = JStr t.
Proof.
  intros H. destruct x; try discriminate H. now eexists.
Qed.

(** [x || "d"] is a string exactly when [x] is a string or falsy. *)
Lemma js_or_text (x : jsval) (d : jsstring) :
  (exists t, js_or x (JStr d) = JStr t) <-> text_or_falsy x = true.
Proof.
  unfold js_or. split.
  - intros [t H]. destruct (truthy x) eqn:E.
    + now subst x.
    + destruct x; cbn in E |- *;
        try reflexivity; try discriminate E; now rewrite E.
  - intros H. destruct (truthy x) eqn:E.
    + destruct x; cbn in H, E; try (rewrite E in H; discriminate H);
        try discriminate H; try discriminate E.
      now eexists.
    + now eexists.
Qed.

(** The template of [line] yields a text exactly when the line numbers it
    converts can be converted. *)
Lemma vio_line_ok (v : jsval) :
  (exists line, vio_line v = inr line) <-> line_printable v = true.
Proof.
  unfold vio_line, line_printable, template_text, printable, bind.
  destruct (truthy (member v (lit "start_line")));
    destruct (truthy (member v (lit "end_line")));
    destruct (ToString (member v (lit "start_line")));
    destruct (ToString (member v (lit "end_line")));
    cbn [andb]; split; intros H; eauto;
    try discriminate H; destruct H as [line H]; discriminate H.
Qed.

Lemma vio_box_well_typed (v : jsval) :
  well_typed_violation v = true -> exists box, vio_box v = inr box.
Proof.
  unfold well_typed_violation. intros H.
  repeat (apply andb_true_iff in H as [H ?]).
  apply negb_true_iff in H.
  match goal with
  | Hs : text_or_falsy (member v (lit "severity")) = true,
    Hl : line_printable v = true,
    Ht : text_or_falsy (member v (lit "title")) = true,
    Hr : text_or_falsy (member v (lit "rule_id")) = true,
    Hm : text_or_falsy (member v (lit "message")) = true,
    Hg : text_or_falsy (member v (lit "suggestion")) = true |- _ =>
      destruct (proj2 (js_or_text _ (lit "warning")) Hs) as [sev Esev];
      destruct (proj2 (vio_line_ok v) Hl) as [line Eline];
      destruct (proj2 (js_or_text _ (lit "RULE")) Hr) as [r1 Er1];
      destruct (proj2 (js_or_text _ []) Hr) as [r2 Er2];
      destruct (proj2 (js_or_text _ []) Hm) as [m Em];
      pose proof Ht as Ht'; pose proof Hg as Hg'
  end.
  unfold vio_box, vio_sev. rewrite H, Esev. cbn [bind].
  rewrite Eline. cbn [bind]. rewrite Er1.
  destruct (proj2 (js_or_text _ r1) Ht') as [t Et]. rewrite Et.
  cbn [escapeHtml_val bind]. rewrite Er2, Em. cbn [escapeHtml_val bind].
  destruct (truthy (member v (lit "suggestion"))) eqn:E.
  - destruct (member v (lit "suggestion")); cbn in Hg', E;
      try discriminate E; try discriminate Hg';
      try (rewrite E in Hg'; discriminate Hg').
    cbn [escapeHtml_val bind]. eexists. reflexivity.
  - cbn [bind]. eexists. reflexivity.
Qed.

Lemma vio_box_inr (v : jsval) (box : Element) :
  vio_box v = inr box -> well_typed_violation v = true.
Proof.
  unfold vio_box. intros H.
  apply bind_inr in H as (sev & Hsev & H).
  apply bind_inr in H as (line & Hline & H).
  apply bind_inr in H as (title & Htitle & H).
  apply bind_inr in H as (rule_id & Hrule & H).
  apply bind_inr in H as (message & Hmsg & H).
  apply bind_inr in H as (suggestion & Hsug & _).
  unfold vio_sev in Hsev.
  destruct (nullish v) eqn:Hnull; [discriminate Hsev|].
  assert (Hs : text_or_falsy (member v (lit "severity")) = true).
  { apply (js_or_text _ (lit "warning")).
    destruct (js_or (member v (lit "severity")) (JStr (lit "warning")));
      try discriminate Hsev. now eexists. }
  assert (Hl : line_printable v = true).
  { apply vio_line_ok. now exists line. }
  assert (Hr : text_or_falsy (member v (lit "rule_id")) = true).
  { apply (js_or_text _ []). now apply escapeHtml_val_inr in Hrule. }
  assert (Hm : text_or_falsy (member v (lit "message")) = true).
  { apply (js_or_text _ []). now apply escapeHtml_val_inr in Hmsg. }
  assert (Ht : text_or_falsy (member v (lit "title")) = true).
  { destruct (proj2 (js_or_text _ (lit "RULE")) Hr) as [r1 Er1].
    rewrite Er1 in Htitle. apply (js_or_text _ r1).
    now apply escapeHtml_val_inr in Htitle. }
  assert (Hg : text_or_falsy (member v (lit "suggestion")) = true).
  { destruct (truthy (member v (lit "suggestion"))) eqn:E.
    - apply bind_inr in Hsug as (sg & Hsg & _).
      apply escapeHtml_val_inr in Hsg as [t ->]. reflexivity.
    - destruct (member v (lit "suggestion")); cbn in E |- *;
        try reflexivity; now rewrite E. }
  unfold well_typed_violation.
  now rewrite Hnull, Hs, Hl, Ht, Hr, Hm, Hg.
Qed.

(** X18.  Building the box of a violation entry succeeds exactly when the
    entry is not [null], each of [severity], [title], [rule_id], [message]
    and [suggestion] is absent, falsy or a string, and the line numbers
    that are written out can be converted to text; in every other case it
    throws. *)
Theorem vio_box_ok_iff (v : jsval) :
  (exists box, vio_box v = inr box) <-> well_typed_violation v = true.
Proof.
  split.
  - intros [box H]. exact (vio_box_inr v box H).
  - apply vio_box_well_typed.
Qed.

Lemma forEach_vios_ok (vios : list jsval) :
  Forall (fun v => well_typed_violation v = true) vios ->
  forall p, exists boxes,
    forEach_vios vios p
    = (set_violationsEl (violationsEl p ++ boxes) p, None)
    /\ Forall2 (fun v box => vio_box v = inr box) vios boxes.
Proof.
  induction 1 as [|v rest Hv Hrest IH]; intros p.
  - exists []. rewrite app_nil_r. split; [now destruct p | constructor].
  - destruct (vio_box_well_typed v Hv) as [box Hbox].
    destruct (IH (set_violationsEl (violationsEl p ++ [box]) p))
      as (boxes & Hrun & Hall).
    exists (box :: boxes). cbn [forEach_vios]. rewrite Hbox, Hrun.
    cbn [violationsEl set_violationsEl]. rewrite <- app_assoc.
    split; [reflexivity | now constructor].
Qed.

Lemma forEach_vios_bad (good : list jsval) (bad : jsval) (rest : list jsval) :
  Forall (fun v => well_typed_violation v = true) good ->
  well_typed_violation bad = false ->
  forall p, exists boxes err,
    forEach_vios (good ++ bad :: rest) p
    = (set_violationsEl (violationsEl p ++ boxes) p, Some err)
    /\ vio_box bad = inl err
    /\ Forall2 (fun v box => vio_box v = inr box) good boxes.
Proof.
  intros Hgood Hbad.
  induction Hgood as [|v good Hv Hgood IH]; intros p.
  - destruct (vio_box bad) as [err | box] eqn:E.
    + exists [], err. cbn [app forEach_vios]. rewrite E, app_nil_r.
      repeat split; [now destruct p | constructor].
    + apply vio_box_inr in E. congruence.
  - destruct (vio_box_well_typed v Hv) as [box Hbox].
    destruct (IH (set_violationsEl (violationsEl p ++ [box]) p))
      as (boxes & err & Hrun & Herr & Hall).
    exists (box :: boxes), err. cbn [app forEach_vios]. rewrite Hbox, Hrun.
    cbn [violationsEl set_violationsEl]. rewrite <- app_assoc.
    repeat split; [exact Herr | now constructor].
Qed.

(** The three conversions of a printable result go through. *)
Lemma result_printable_texts (result : jsval) :
  result_printable result = true ->
  exists summary fixed diff,
    ToString (js_or (member result (lit "summary")) (JStr NO_SUMMARY))
    = Some summary
    /\ ToString (js_or (member result (lit "fixed_code")) (JStr []))
       = Some fixed
    /\ ToString (js_or (member result (lit "unified_diff")) (JStr []))
       = Some diff.
Proof.
  unfold result_printable, printable. intros H.
  destruct (ToString (js_or _ (JStr NO_SUMMARY))) as [summary|];
    [|discriminate H].
  destruct (ToString (js_or (member result (lit "fixed_code")) _))
    as [fixed|]; [|discriminate H].
  destruct (ToString (js_or (member result (lit "unified_diff")) _))
    as [diff|]; [|discriminate H].
  now exists summary, fixed, diff.
Qed.

(** X19.  For a result whose [summary], [fixed_code] and [unified_diff] can
    be converted to text and whose [violations] is a non-empty list of
    well-typed entries, [renderCheckResult] throws nothing and replaces
    what the violation area showed by one box per entry, in the order of
    the list. *)
Theorem renderCheckResult_boxes (result : jsval) (vios : list jsval)
        (p : Page) :
  nullish result = false -> result_printable result = true ->
  member result (lit "violations") = JArr vios -> vios <> [] ->
  Forall (fun v => well_typed_violation v = true) vios ->
  snd (renderCheckResult result p) = None
  /\ Forall2 (fun v box => vio_box v = inr box)
             vios (violationsEl (fst (renderCheckResult result p)))
  /\ length (violationsEl (fst (renderCheckResult result p))) = length vios.
Proof.
  intros Hnull Hprint Hvios Hne Hall.
  destruct (result_printable_texts result Hprint)
    as (summary & fixed & diff & Es & Ef & Ed).
  unfold renderCheckResult, vios_of. rewrite Hnull, Es, Ef, Ed, Hvios.
  destruct vios as [|v rest]; [congruence|].
  cbn [length Nat.eqb].
  match goal with
  | |- context [forEach_vios ?l ?q] =>
      destruct (forEach_vios_ok l Hall q) as (boxes & -> & Hboxes)
  end.
  cbn [fst snd violationsEl set_violationsEl app].
  repeat split; [exact Hboxes|].
  symmetry. exact (Forall2_length Hboxes).
Qed.

(** X20.  When [summary], [fixed_code] and [unified_diff] can be converted
    to text and [violations] is anything but a list (a string, a number, an
    object, absent), [renderCheckResult] throws nothing and shows the single
    muted line of an empty result. *)
Theorem renderCheckResult_not_a_list (result : jsval) (p : Page) :
  nullish result = false -> result_printable result = true ->
  (forall items, member result (lit "violations") <> JArr items) ->
  snd (renderCheckResult result p) = None
  /\ violationsEl (fst (renderCheckResult result p))
     = [{| tagName := lit "div"; className := lit "muted";
           content := TextContent NO_VIOLATIONS |}].
Proof.
  intros Hnull Hprint Hnot.
  destruct (result_printable_texts result Hprint)
    as (summary & fixed & diff & Es & Ef & Ed).
  unfold renderCheckResult, vios_of. rewrite Hnull, Es, Ef, Ed.
  destruct (member result (lit "violations")) eqn:E;
    try (split; reflexivity).
  now elim (Hnot items).
Qed.

(** X21.  When [summary], [fixed_code] and [unified_diff] can be converted
    to text and an entry of [violations] is ill-typed, [renderCheckResult]
    throws at that entry: the boxes of the entries before it stay shown,
    none is shown for it or for the entries after it, and [runCheck] puts
    the error text in the summary line. *)
Theorem renderCheckResult_stops_at_bad_entry
        (result : jsval) (good : list jsval) (bad : jsval)
        (rest : list jsval) (status : N) (text : jsstring) (p : Page) :
  nullish result = false -> result_printable result = true ->
  member result (lit "violations") = JArr (good ++ bad :: rest) ->
  Forall (fun v => well_typed_violation v = true) good ->
  well_typed_violation bad = false ->
  ((200 <=? status) && (status <=? 299))%N = true ->
  JSON_parse text = Some result ->
  exists err,
    vio_box bad = inl err
    /\ snd (renderCheckResult result p) = Some err
    /\ Forall2 (fun v box => vio_box v = inr box)
               good (violationsEl (fst (renderCheckResult result p)))
    /\ resultSummary (runCheck_settled (Responded status text) p)
       = error_prefix ++ String_of_error err
    /\ violationsEl (runCheck_settled (Responded status text) p)
       = violationsEl (fst (renderCheckResult result p)).
Proof.
  intros Hnull Hprint Hvios Hgood Hbad Hok Hparse.
  destruct (result_printable_texts result Hprint)
    as (summary & fixed & diff & Es & Ef & Ed).
  unfold runCheck_settled, postJson. rewrite Hok, Hparse. cbn [negb].
  unfold renderCheckResult, vios_of. rewrite Hnull, Es, Ef, Ed, Hvios.
  assert (Hlen : (length (good ++ bad :: rest) =? 0) = false).
  { rewrite length_app. cbn [length]. apply Nat.eqb_neq. lia. }
  rewrite Hlen.
  match goal with
  | |- context [forEach_vios ?l ?q] =>
      destruct (forEach_vios_bad good bad rest Hgood Hbad q)
        as (boxes & err & -> & Herr & Hboxes)
  end.
  exists err.
  cbn [fst snd violationsEl set_violationsEl resultSummary set_resultSummary
       app].
  repeat split; assumption.
Qed.

(** X22.  String fields of a result are shown as they are, whether or not
    a violation entry makes the rendering throw later: a non-empty
    [summary] in the summary line, [fixed_code] in its panel when the
    summary could be converted to text, [unified_diff] in its panel when
    the summary and the fixed code could.  A value that cannot be converted
    makes the assignment throw: at the summary nothing has changed yet, at
    the fixed code the summary is set, the violation area is empty and the
    two panels are as before. *)
Theorem renderCheckResult_verbatim (result : jsval) (p : Page) :
  let summary := js_or (member result (lit "summary")) (JStr NO_SUMMARY) in
  let fixed := js_or (member result (lit "fixed_code")) (JStr []) in
  (forall s, member result (lit "summary") = JStr s -> s <> [] ->
             resultSummary (fst (renderCheckResult result p)) = s)
  /\ (forall f, member result (lit "fixed_code") = JStr f ->
                printable summary = true ->
                fixedCodeEl (fst (renderCheckResult result p)) = f)
  /\ (forall d, member result (lit "unified_diff") = JStr d ->
                printable summary = true -> printable fixed = true ->
                unifiedDiffEl (fst (renderCheckResult result p)) = d)
  /\ (nullish result = false -> printable summary = false ->
      exists err, renderCheckResult result p = (p, Some err))
  /\ (forall s, nullish result = false -> ToString summary = Some s ->
                printable fixed = false ->
                exists err,
                  renderCheckResult result p
                  = (set_violationsEl [] (set_resultSummary s p), Some err)).
Proof.
  intros summary fixed. subst summary fixed.
  assert (Hobj : forall key s, member result key = JStr s ->
                               nullish result = false).
  { intros key s H. now destruct result. }
  assert (Hstr : forall x d, js_or (JStr x) (JStr d)
                             = JStr (if nonempty x then x else d)).
  { intros x d. unfold js_or. cbn [truthy]. now destruct (nonempty x). }
  unfold renderCheckResult, printable. repeat split.
  - intros s H Hs. rewrite (Hobj _ _ H), H, Hstr.
    assert (Hne : nonempty s = true) by now destruct s.
    rewrite Hne. cbn [ToString].
    destruct (ToString (js_or (member result (lit "fixed_code")) _));
      [|reflexivity].
    destruct (ToString (js_or (member result (lit "unified_diff")) _));
      [|reflexivity].
    destruct (length (vios_of result) =? 0); [reflexivity|].
    match goal with
    | |- context [forEach_vios ?l ?q] =>
        destruct (forEach_vios_frame l q) as [boxes ->]
    end.
    reflexivity.
  - intros f H Hsum. rewrite (Hobj _ _ H), H, Hstr.
    destruct (ToString (js_or _ (JStr NO_SUMMARY))); [|discriminate Hsum].
    assert (Hf : (if nonempty f then f else []) = f) by now destruct f.
    rewrite Hf. cbn [ToString].
    destruct (ToString (js_or (member result (lit "unified_diff")) _));
      [|reflexivity].
    destruct (length (vios_of result) =? 0); [reflexivity|].
    match goal with
    | |- context [forEach_vios ?l ?q] =>
        destruct (forEach_vios_frame l q) as [boxes ->]
    end.
    reflexivity.
  - intros d H Hsum Hfix. rewrite (Hobj _ _ H), H, Hstr.
    destruct (ToString (js_or _ (JStr NO_SUMMARY))); [|discriminate Hsum].
    destruct (ToString (js_or (member result (lit "fixed_code")) _));
      [|discriminate Hfix].
    assert (Hd : (if nonempty d then d else []) = d) by now destruct d.
    rewrite Hd. cbn [ToString].
    destruct (length (vios_of result) =? 0); [reflexivity|].
    match goal with
    | |- context [forEach_vios ?l ?q] =>
        destruct (forEach_vios_frame l q) as [boxes ->]
    end.
    reflexivity.
  - intros -> Hsum.
    destruct (ToString (js_or _ (JStr NO_SUMMARY))); [discriminate Hsum|].
    eauto.
  - intros s -> -> Hfix.
    destruct (ToString (js_or (member result (lit "fixed_code")) _));
      [discriminate Hfix|].
    eauto.
Qed.

(** X23.  A settled check call changes the summary line, the violation
    area, the fixed code and the diff and nothing else: the transcript, the
    three input fields, the check boxes, the tabs, the store and the
    requests sent stay as they were. *)
Theorem runCheck_settled_touches_results_only (res : FetchResult)
        (p : Page) :
  let p' := runCheck_settled res p in
  chatLog p' = chatLog p /\ chatInput p' = chatInput p
  /\ codeInput p' = codeInput p /\ sessionIdInput p' = sessionIdInput p
  /\ autoFix p' = autoFix p /\ includeDiff p' = includeDiff p
  /\ tabs p' = tabs p /\ focus p' = focus p
  /\ localStorage p' = localStorage p /\ requests p' = requests p.
Proof.
  intros p'. subst p'.
  destruct (runCheck_settled_frame res p) as (s & v & f & d & ->).
  repeat split.
Qed.

(** ** Tabs and start-up *)

Lemma step_tabs (ev : Event) (p : Page) :
  tabs (step ev p) = tabs p \/ tabs_consistent (tabs (step ev p)) = true.
Proof.
  destruct ev; cbn [step]; try (now left); try (now right).
  - left. unfold sendChat.
    destruct (negb (nonempty (trim (chatInput p)))); [reflexivity|].
    destruct (getSessionId_frame rnd p) as (field & st & H).
    destruct (getSessionId rnd p) as [sid p1]. cbn [snd] in H. now subst p1.
  - left. unfold chatInput_keydown.
    destruct (str_eqb key (lit "Enter") && (ctrlKey || metaKey));
      [|reflexivity].
    unfold sendChat.
    destruct (negb (nonempty (trim (chatInput p)))); [reflexivity|].
    destruct (getSessionId_frame rnd p) as (field & st & H).
    destruct (getSessionId rnd p) as [sid p1]. cbn [snd] in H. now subst p1.
  - left. unfold runCheck.
    destruct (negb (nonempty (trim (codeInput p)))); [reflexivity|].
    destruct (getSessionId_frame rnd p) as (field & st & H).
    destruct (getSessionId rnd p) as [sid p1]. cbn [snd] in H. now subst p1.
  - left. unfold sessionId_change.
    now destruct
      (nonempty (trim (sessionIdInput (set_sessionIdInput value p)))).
  - left. unfold sendChat_settled.
    now destruct (out <- postJson res ;; agent_reply_text out).
  - left. destruct (runCheck_settled_frame res p) as (s & v & f & d & ->).
    reflexivity.
Qed.

(** X24.  After start-up and any sequence of events, exactly one of the two
    tabs is active and marked selected, its panel is shown and the other
    panel is hidden. *)
Theorem tabs_always_consistent (evs : list Event) (rnd : Dyadic) (clock : N)
        (p : Page) :
  tabs_consistent (tabs (run evs (init rnd clock p))) = true.
Proof.
  assert (Hrun : forall q, tabs_consistent (tabs q) = true ->
                           tabs_consistent (tabs (run evs q)) = true).
  { unfold run. induction evs as [|ev evs IH]; intros q Hq; [exact Hq|].
    cbn [fold_left]. apply IH.
    destruct (step_tabs ev q) as [-> | H]; assumption. }
  apply Hrun. reflexivity.
Qed.

(** X25.  Start-up writes nothing to the store and sends nothing; it shows
    one bubble and never leaves the session field empty.  With nothing
    stored the field holds a fresh id, and the first [getSessionId]
    afterwards returns exactly that id, without a second draw, and stores
    it. *)
Theorem init_session (rnd rnd' : Dyadic) (clock : N) (p : Page) :
  let p1 := init rnd clock p in
  localStorage p1 = localStorage p
  /\ requests p1 = requests p
  /\ length (chatLog p1) = 1
  /\ nonempty (sessionIdInput p1) = true
  /\ (getItem STORAGE_KEY (localStorage p) = None ->
      sessionIdInput p1 = lit "demo-" ++ slice 2 10 (Number_toString16 rnd)
      /\ fst (getSessionId rnd' p1) = sessionIdInput p1
      /\ getItem STORAGE_KEY (localStorage (snd (getSessionId rnd' p1)))
         = Some (sessionIdInput p1)).
Proof.
  intros p1. subst p1.
  split; [|split; [|split; [|split]]].
  - unfold init, clearChat, loadSessionId.
    now destruct (getItem STORAGE_KEY (localStorage p)) as [[|c sid]|].
  - unfold init, clearChat, loadSessionId.
    now destruct (getItem STORAGE_KEY (localStorage p)) as [[|c sid]|].
  - unfold init, clearChat, loadSessionId.
    now destruct (getItem STORAGE_KEY (localStorage p)) as [[|c sid]|].
  - unfold init, clearChat, loadSessionId.
    now destruct (getItem STORAGE_KEY (localStorage p)) as [[|c sid]|].
  - intros E.
    set (fresh := lit "demo-" ++ slice 2 10 (Number_toString16 rnd)).
    assert (Hfield : sessionIdInput (init rnd clock p) = fresh).
    { unfold init, clearChat, loadSessionId. now rewrite E. }
    split; [exact Hfield|].
    destruct (getSessionId_cases rnd' (init rnd clock p))
      as [[_ ->] | [Hblank _]].
    + cbn [fst snd localStorage set_localStorage].
      rewrite Hfield. unfold fresh. rewrite fresh_id_trimmed.
      split; [reflexivity | apply getItem_setItem].
    + rewrite Hfield in Hblank. unfold fresh in Hblank.
      rewrite fresh_id_trimmed in Hblank. discriminate Hblank.
Qed.

(** ** Pasting the result into the chat *)

(** A text that starts with a prose piece and a fenced block is shown as
    that piece, that block, and what the rest of the text gives. *)
Lemma forEach_block (P C R : jsstring) :
  first_at_end FENCE P = true -> first_at_end FENCE C = true ->
  forEach_parts (split FENCE (P ++ FENCE ++ C ++ FENCE ++ R)) 0
  = (if nonempty (trim P) then [ProseSegment P] else [])
    ++ CodeSegment (code_body C) :: forEach_parts (split FENCE R) 0.
Proof.
  intros HP HC. unfold FENCE in *.
  rewrite split_first by exact HP. rewrite split_first by exact HC.
  cbn [forEach_parts Nat.even app]. now rewrite forEach_parts_SS.
Qed.

Lemma segment_fenced (P X : jsstring) :
  first_at_end FENCE P = true ->
  segment (P ++ FENCE ++ X) = forEach_parts (split FENCE (P ++ FENCE ++ X)) 0.
Proof.
  intros HP. unfold segment.
  replace (length (split FENCE (P ++ FENCE ++ X)) =? 1) with false;
    [reflexivity|].
  unfold FENCE in *. rewrite split_first by exact HP.
  pose proof (split_not_nil BACKTICK [BACKTICK; BACKTICK] X) as Hne.
  destruct (split (BACKTICK :: [BACKTICK; BACKTICK]) X);
    [congruence | reflexivity].
Qed.

Lemma no_backtick_not_In (x : jsstring) :
  existsb (N.eqb BACKTICK) x = false -> ~ In BACKTICK x.
Proof.
  intros H Hin.
  assert (existsb (N.eqb BACKTICK) x = true).
  { apply existsb_exists. exists BACKTICK. split; [exact Hin|].
    apply N.eqb_refl. }
  congruence.
Qed.

Lemma no_backtick_no_fence (x : jsstring) :
  existsb (N.eqb BACKTICK) x = false -> occurs FENCE x = false.
Proof.
  induction x as [|c x IH]; intros H; [reflexivity|].
  cbn [existsb] in H. apply orb_false_iff in H as [Hc Hx].
  cbn [occurs]. rewrite (IH Hx), orb_false_r.
  unfold FENCE. cbn [starts_with]. now rewrite Hc.
Qed.

Lemma ends_with_backtick_app (y : jsstring) (c : N) (z : jsstring) :
  ends_with_backtick (y ++ c :: z) = ends_with_backtick (c :: z).
Proof.
  unfold ends_with_backtick. rewrite rev_app_distr. cbn [rev].
  now destruct (rev z).
Qed.

Lemma no_backtick_end (x : jsstring) :
  existsb (N.eqb BACKTICK) x = false -> ends_with_backtick x = false.
Proof.
  intros H. unfold ends_with_backtick.
  destruct (rev x) as [|c r] eqn:E; [reflexivity|].
  destruct (N.eqb_spec c BACKTICK) as [-> |]; [|reflexivity].
  exfalso. apply (no_backtick_not_In x H).
  apply In_rev. rewrite E. now left.
Qed.

Lemma occurs_text_then (y : jsstring) (c : N) (z : jsstring) :
  occurs FENCE y = false ->
  existsb (N.eqb BACKTICK) (c :: z) = false ->
  occurs FENCE (y ++ c :: z) = false.
Proof.
  intros Hy Hcz.
  pose proof (no_backtick_no_fence _ Hcz) as Htail.
  cbn [existsb] in Hcz. apply orb_false_iff in Hcz as [Hc _].
  induction y as [|a y IH]; [exact Htail|].
  cbn [occurs] in Hy. apply orb_false_iff in Hy as [Hst Hy].
  cbn [app occurs]. rewrite (IH Hy), orb_false_r.
  destruct y as [|b [|b' y]].
  - unfold FENCE. cbn [app starts_with]. now rewrite Hc, andb_false_r.
  - unfold FENCE. cbn [app starts_with]. now rewrite Hc, !andb_false_r.
  - rewrite <- Hst.
    change (a :: (b :: b' :: y) ++ c :: z)
      with ((a :: b :: b' :: y) ++ c :: z).
    apply starts_with_window. cbn [length FENCE]. lia.
Qed.

Lemma first_at_end_text_then (y : jsstring) (c : N) (z : jsstring) :
  occurs FENCE y = false ->
  existsb (N.eqb BACKTICK) (c :: z) = false ->
  first_at_end FENCE (y ++ c :: z) = true.
Proof.
  intros Hy Hcz. apply fence_free_first_at_end.
  - now apply occurs_text_then.
  - rewrite ends_with_backtick_app. now apply no_backtick_end.
Qed.

Lemma trim_nonempty (s : jsstring) :
  existsb (fun c => negb (is_ws c)) s = true -> nonempty (trim s) = true.
Proof.
  intros H. apply existsb_exists in H as (c & Hin & Hc).
  apply negb_true_iff in Hc.
  destruct (trim_decompose s) as (w1 & w2 & Hs & Hw1 & Hw2).
  rewrite Hs in Hin.
  apply in_app_or in Hin as [Hin | Hin];
    [| apply in_app_or in Hin as [Hin | Hin]].
  - rewrite (proj1 (forallb_forall _ _) Hw1 c Hin) in Hc. discriminate Hc.
  - now destruct (trim s).
  - rewrite (proj1 (forallb_forall _ _) Hw2 c Hin) in Hc. discriminate Hc.
Qed.

(** The fenced block written for [body] under the language [tag]. *)
Lemma tagged_block (tag body : jsstring) :
  existsb (N.eqb BACKTICK) tag = false ->
  existsb (N.eqb LF) tag = false -> is_ident (trim tag) = true ->
  occurs FENCE body = false ->
  first_at_end FENCE (tag ++ [LF] ++ body ++ [LF]) = true
  /\ code_body (tag ++ [LF] ++ body ++ [LF])
     = strip_leading_newlines (body ++ [LF]).
Proof.
  intros Hbt Hnl Hid Hbody. split.
  - apply first_at_end_no_backtick; [now apply no_backtick_not_In|].
    apply first_at_end_LF. now apply first_at_end_text_then.
  - now apply code_body_tagged.
Qed.

Lemma paste_message_segments (hdr summary fixed diff : jsstring) :
  existsb (N.eqb BACKTICK) hdr = false ->
  existsb (fun c => negb (is_ws c)) hdr = true ->
  occurs FENCE summary = false ->
  occurs FENCE fixed = false -> occurs FENCE diff = false ->
  segment
    (let msg := hdr ++ summary ++ [LF] in
     let msg :=
       if nonempty (trim fixed)
       then msg ++ [LF] ++ lit "fixed_code:" ++ [LF] ++ FENCE ++ lit "python"
                ++ [LF] ++ fixed ++ [LF] ++ FENCE ++ [LF]
       else msg in
     let msg :=
       if nonempty (trim diff)
       then msg ++ [LF] ++ lit "diff:" ++ [LF] ++ FENCE ++ lit "diff"
                ++ [LF] ++ diff ++ [LF] ++ FENCE ++ [LF]
       else msg in
     msg)
  = match nonempty (trim fixed), nonempty (trim diff) with
    | false, false => [ProseSegment (hdr ++ summary ++ [LF])]
    | true, false =>
        [ProseSegment (hdr ++ summary ++ [LF] ++ [LF] ++ lit "fixed_code:"
                       ++ [LF]);
         CodeSegment (strip_leading_newlines (fixed ++ [LF]))]
    | false, true =>
        [ProseSegment (hdr ++ summary ++ [LF] ++ [LF] ++ lit "diff:"
                       ++ [LF]);
         CodeSegment (strip_leading_newlines (diff ++ [LF]))]
    | true, true =>
        [ProseSegment (hdr ++ summary ++ [LF] ++ [LF] ++ lit "fixed_code:"
                       ++ [LF]);
         CodeSegment (strip_leading_newlines (fixed ++ [LF]));
         ProseSegment ([LF] ++ [LF] ++ lit "diff:" ++ [LF]);
         CodeSegment (strip_leading_newlines (diff ++ [LF]))]
    end.
Proof.
  intros Hbt Hink Hsum Hfixed Hdiff.
  assert (Hprose : forall tail,
             existsb (N.eqb BACKTICK) tail = false ->
             first_at_end FENCE (hdr ++ summary ++ [LF] ++ tail) = true
             /\ nonempty (trim (hdr ++ summary ++ [LF] ++ tail)) = true).
  { intros tail Htail. split.
    - apply first_at_end_no_backtick; [now apply no_backtick_not_In|].
      now apply first_at_end_text_then.
    - apply trim_nonempty. rewrite existsb_app, Hink. reflexivity. }
  destruct (tagged_block (lit "python") fixed eq_refl eq_refl eq_refl Hfixed)
    as [Hc1 Hb1].
  destruct (tagged_block (lit "diff") diff eq_refl eq_refl eq_refl Hdiff)
    as [Hc2 Hb2].
  cbv zeta.
  destruct (nonempty (trim fixed)), (nonempty (trim diff)).
  - destruct (Hprose ([LF] ++ lit "fixed_code:" ++ [LF]) eq_refl)
      as [HP Hne].
    replace ((((hdr ++ summary ++ [LF]) ++ [LF] ++ lit "fixed_code:" ++ [LF]
               ++ FENCE ++ lit "python" ++ [LF] ++ fixed ++ [LF] ++ FENCE
               ++ [LF]) ++ [LF] ++ lit "diff:" ++ [LF] ++ FENCE ++ lit "diff"
              ++ [LF] ++ diff ++ [LF] ++ FENCE ++ [LF]))
      with ((hdr ++ summary ++ [LF] ++ [LF] ++ lit "fixed_code:" ++ [LF])
            ++ FENCE ++ (lit "python" ++ [LF] ++ fixed ++ [LF]) ++ FENCE
            ++ (([LF] ++ [LF] ++ lit "diff:" ++ [LF]) ++ FENCE
                ++ (lit "diff" ++ [LF] ++ diff ++ [LF]) ++ FENCE ++ [LF]))
      by (repeat rewrite <- app_assoc; reflexivity).
    rewrite segment_fenced by exact HP.
    rewrite forEach_block by assumption.
    rewrite forEach_block by (first [exact Hc2 | reflexivity]).
    rewrite Hne, Hb1, Hb2. reflexivity.
  - destruct (Hprose ([LF] ++ lit "fixed_code:" ++ [LF]) eq_refl)
      as [HP Hne].
    replace ((hdr ++ summary ++ [LF]) ++ [LF] ++ lit "fixed_code:" ++ [LF]
             ++ FENCE ++ lit "python" ++ [LF] ++ fixed ++ [LF] ++ FENCE
             ++ [LF])
      with ((hdr ++ summary ++ [LF] ++ [LF] ++ lit "fixed_code:" ++ [LF])
            ++ FENCE ++ (lit "python" ++ [LF] ++ fixed ++ [LF]) ++ FENCE
            ++ [LF])
      by (repeat rewrite <- app_assoc; reflexivity).
    rewrite segment_fenced by exact HP.
    rewrite forEach_block by assumption.
    rewrite Hne, Hb1. reflexivity.
  - destruct (Hprose ([LF] ++ lit "diff:" ++ [LF]) eq_refl) as [HP Hne].
    replace ((hdr ++ summary ++ [LF]) ++ [LF] ++ lit "diff:" ++ [LF]
             ++ FENCE ++ lit "diff" ++ [LF] ++ diff ++ [LF] ++ FENCE ++ [LF])
      with ((hdr ++ summary ++ [LF] ++ [LF] ++ lit "diff:" ++ [LF])
            ++ FENCE ++ (lit "diff" ++ [LF] ++ diff ++ [LF]) ++ FENCE
            ++ [LF])
      by (repeat rewrite <- app_assoc; reflexivity).
    rewrite segment_fenced by exact HP.
    rewrite forEach_block by assumption.
    rewrite Hne, Hb2. reflexivity.
  - destruct (Hprose [] eq_refl) as [HP _].
    unfold FENCE in HP. apply first_at_end_occurs in HP.
    unfold segment, FENCE. rewrite split_none; [reflexivity | exact HP].
Qed.

(** X26.  When the summary, the fixed code and the diff shown hold no
    fence, [pasteResultToChat] adds one assistant bubble and switches to the
    chat tab.  The bubble shows the header and the summary as prose, then,
    for each of fixed code and diff that is not blank, a prose line naming
    it and one code block: the text without its leading newlines, followed
    by the newline written before the closing fence. *)
Theorem pasteResultToChat_shows (clock : N) (p : Page) :
  occurs FENCE (resultSummary p) = false ->
  occurs FENCE (fixedCodeEl p) = false ->
  occurs FENCE (unifiedDiffEl p) = false ->
  let intro := PASTE_HEADER ++ resultSummary p ++ [LF] in
  let fixed_block :=
    CodeSegment (strip_leading_newlines (fixedCodeEl p ++ [LF])) in
  let diff_block :=
    CodeSegment (strip_leading_newlines (unifiedDiffEl p ++ [LF])) in
  let segs :=
    match nonempty (trim (fixedCodeEl p)),
          nonempty (trim (unifiedDiffEl p)) with
    | false, false => [ProseSegment intro]
    | true, false =>
        [ProseSegment (intro ++ [LF] ++ lit "fixed_code:" ++ [LF]);
         fixed_block]
    | false, true =>
        [ProseSegment (intro ++ [LF] ++ lit "diff:" ++ [LF]); diff_block]
    | true, true =>
        [ProseSegment (intro ++ [LF] ++ lit "fixed_code:" ++ [LF]);
         fixed_block;
         ProseSegment ([LF] ++ [LF] ++ lit "diff:" ++ [LF]);
         diff_block]
    end in
  exists meta,
    chatLog (pasteResultToChat clock p)
    = chatLog p
      ++ [{| wrap_className := lit "bubble assistant";
             wrap_children := meta :: map render_segment segs |}]
    /\ tabChat_active (tabs (pasteResultToChat clock p)) = true
    /\ chatPanel_hidden (tabs (pasteResultToChat clock p)) = false
    /\ focus (pasteResultToChat clock p) = FocusChatInput.
Proof.
  intros Hsum Hfixed Hdiff intro fixed_block diff_block segs.
  pose proof (paste_message_segments PASTE_HEADER (resultSummary p)
                (fixedCodeEl p) (unifiedDiffEl p) eq_refl eq_refl
                Hsum Hfixed Hdiff) as Hseg.
  cbv zeta in Hseg.
  assert (Hsegs : segs
                  = match nonempty (trim (fixedCodeEl p)),
                          nonempty (trim (unifiedDiffEl p)) with
                    | false, false =>
                        [ProseSegment (PASTE_HEADER ++ resultSummary p ++ [LF])]
                    | true, false =>
                        [ProseSegment
                           (PASTE_HEADER ++ resultSummary p ++ [LF] ++ [LF]
                            ++ lit "fixed_code:" ++ [LF]);
                         CodeSegment
                           (strip_leading_newlines (fixedCodeEl p ++ [LF]))]
                    | false, true =>
                        [ProseSegment
                           (PASTE_HEADER ++ resultSummary p ++ [LF] ++ [LF]
                            ++ lit "diff:" ++ [LF]);
                         CodeSegment
                           (strip_leading_newlines (unifiedDiffEl p ++ [LF]))]
                    | true, true =>
                        [ProseSegment
                           (PASTE_HEADER ++ resultSummary p ++ [LF] ++ [LF]
                            ++ lit "fixed_code:" ++ [LF]);
                         CodeSegment
                           (strip_leading_newlines (fixedCodeEl p ++ [LF]));
                         ProseSegment ([LF] ++ [LF] ++ lit "diff:" ++ [LF]);
                         CodeSegment
                           (strip_leading_newlines (unifiedDiffEl p ++ [LF]))]
                    end).
  { subst segs intro fixed_block diff_block.
    destruct (nonempty (trim (fixedCodeEl p))),
             (nonempty (trim (unifiedDiffEl p)));
      repeat rewrite <- app_assoc; reflexivity. }
  rewrite Hsegs, <- Hseg.
  eexists. split; [|repeat split].
  unfold pasteResultToChat, setMode, appendBubble.
  rewrite str_eqb_refl.
  cbn [chatLog set_tabs set_chatLog].
  do 3 f_equal.
Qed.

End Script.

(** ** The properties at concrete inputs *)

(** C1: on the empty object the summary shown is the placeholder of the
    script, which is not the text [no summary]. *)
Lemma renderCheckResult_placeholder_differs :
  resultSummary
    (fst (renderCheckResult sample_toLowerCase sample_TypeError_message
                            (JObj []) blank_page))
  <> lit "no summary".
Proof.
  vm_compute. discriminate.
Qed.

Lemma renderCheckResult_no_fields_witness :
  lookup (lit "summary") [(lit "ok", JBool true)] = JUndefined
  /\ exists p',
      renderCheckResult sample_toLowerCase sample_TypeError_message
                        (JObj [(lit "ok", JBool true)]) blank_page
      = (p', None)
      /\ resultSummary p' = NO_SUMMARY
      /\ vios_of (JObj [(lit "ok", JBool true)]) = []
      /\ violationsEl p'
         = [{| tagName := lit "div"; className := lit "muted";
               content := TextContent NO_VIOLATIONS |}]
      /\ fixedCodeEl p' = []
      /\ unifiedDiffEl p' = [].
Proof.
  split; [reflexivity|].
  apply (renderCheckResult_no_fields sample_toLowerCase
           sample_TypeError_message [(lit "ok", JBool true)] blank_page);
    reflexivity.
Defined.



(** C4: a prose part that ends in a backtick moves the fence found one
    place to the left, and the pieces are not the ones written. *)
Lemma segment_backtick_before_fence :
  segment (lit "x`" ++ FENCE ++ (lit "py" ++ [LF] ++ lit "code")
           ++ FENCE ++ lit "y")
  = [ProseSegment (lit "x");
     CodeSegment (lit "`py" ++ [LF] ++ lit "code");
     ProseSegment (lit "y")]
  /\ segment (lit "x`" ++ FENCE ++ (lit "py" ++ [LF] ++ lit "code")
              ++ FENCE ++ lit "y")
     <> [ProseSegment (lit "x`"); CodeSegment (lit "code");
         ProseSegment (lit "y")].
Proof.
  split; vm_compute; [reflexivity | discriminate].
Qed.

Lemma segment_fenced_block_witness :
  segment (lit "see " ++ FENCE ++ (lit "python" ++ [LF] ++ lit "code")
           ++ FENCE ++ lit " done")
  = [ProseSegment (lit "see "); CodeSegment (lit "code");
     ProseSegment (lit " done")].
Proof.
  apply (segment_fenced_block (lit "see ") (lit "python") (lit "code")
                              (lit " done"));
    reflexivity.
Defined.

(** C5: the body emitted for the fenced [foo] is not [foo] alone. *)
Lemma segment_untagged_block_trailing_newline :
  segment (FENCE ++ [LF] ++ lit "foo" ++ [LF] ++ FENCE)
  <> [CodeSegment (lit "foo")].
Proof.
  vm_compute. discriminate.
Qed.

Lemma segment_untagged_block_witness :
  is_ident (trim (hd [] (split [LF] ([LF] ++ lit "foo" ++ [LF])))) = false
  /\ code_body ([LF] ++ lit "foo" ++ [LF]) = lit "foo" ++ [LF].
Proof.
  split; [reflexivity|].
  apply (proj2 segment_untagged_block ([LF] ++ lit "foo" ++ [LF])).
  reflexivity.
Defined.

Lemma postJson_outcome_witness :
  postJson sample_JSON_parse (Responded 500 (lit "boom"))
  = inl (Error (lit "boom"))
  /\ postJson sample_JSON_parse (Responded 500 [])
     = inl (Error (lit "HTTP 500"))
  /\ postJson sample_JSON_parse (Responded 200 (lit "<html>"))
     = inr (JObj [(lit "raw", JStr (lit "<html>"))]).
Proof.
  split; [|split].
  - apply (proj1 (postJson_outcome sample_JSON_parse 500 (lit "boom"))).
    reflexivity.
  - apply (proj1 (postJson_outcome sample_JSON_parse 500 [])).
    reflexivity.
  - apply (proj2 (postJson_outcome sample_JSON_parse 200 (lit "<html>")));
      reflexivity.
Defined.



(** C8: after start-up with an empty store the field holds a fresh id that
    is not stored yet; the next [getSessionId] finds the field non-empty and
    still writes to the store. *)
Lemma getSessionId_writes_without_synthesis :
  let rnd := {| numerator := 0x12345678; exponent := 32 |} in
  let p := loadSessionId rnd blank_page in
  nonempty (trim (sessionIdInput p)) = true
  /\ fst (getSessionId rnd p) = sessionIdInput p
  /\ localStorage p = []
  /\ localStorage (snd (getSessionId rnd p))
     = [(STORAGE_KEY, lit "demo-12345678")]
  /\ localStorage (snd (getSessionId rnd p)) <> localStorage p.
Proof.
  vm_compute. repeat split; discriminate.
Qed.

Lemma localStorage_written_by_witness :
  let rnd := {| numerator := 0x12345678; exponent := 32 |} in
  let p := set_sessionIdInput (lit " alice ") blank_page in
  fst (getSessionId rnd p) = lit "alice"
  /\ sessionIdInput (snd (getSessionId rnd p)) = lit " alice "
  /\ localStorage (snd (getSessionId rnd p))
     = setItem STORAGE_KEY (lit "alice") (localStorage p).
Proof.
  intros rnd p.
  destruct (proj2 (proj2 (proj1 (localStorage_written_by
                                   sample_toLowerCase sample_JSON_parse
                                   sample_JSON_stringify
                                   sample_toLocaleTimeString
                                   sample_TypeError_message
                                   (EditSessionId []) p) rnd))
                  eq_refl)
    as (Hid & Hfield & Hstore & _).
  repeat split; assumption.
Defined.

(** C9: a code body of one word is written back as the language line of an
    empty block. *)
Lemma segment_join_segments_tag :
  let text := FENCE ++ [LF] ++ lit "foo" ++ FENCE in
  segment text = [CodeSegment (lit "foo")]
  /\ join_segments (segment text) = FENCE ++ lit "foo" ++ FENCE
  /\ segment (join_segments (segment text)) = [CodeSegment []]
  /\ segment (join_segments (segment text)) <> segment text.
Proof.
  vm_compute. repeat split; discriminate.
Qed.

Lemma segment_join_segments_witness :
  let segs :=
    [ProseSegment (lit "see "); CodeSegment (lit "x = 1" ++ [LF]);
     CodeSegment (lit "a b"); ProseSegment (lit " done")] in
  well_formed_segments segs = true
  /\ join_segments segs
     = lit "see " ++ FENCE ++ lit "x = 1" ++ [LF] ++ FENCE
       ++ FENCE ++ lit "a b" ++ FENCE ++ lit " done"
  /\ segment (join_segments segs) = segs.
Proof.
  intros segs. split; [reflexivity|]. split; [reflexivity|].
  apply (segment_join_segments segs). reflexivity.
Defined.

Lemma blank_input_sends_nothing_witness :
  sendChat sample_JSON_stringify sample_toLocaleTimeString
           {| numerator := 1; exponent := 1 |} 0 0
           (set_chatInput (lit "  ") blank_page)
  = set_chatInput (lit "  ") blank_page
  /\ runCheck sample_JSON_stringify {| numerator := 1; exponent := 1 |}
              (set_codeInput [LF] blank_page)
     = set_resultSummary CODE_REQUIRED (set_codeInput [LF] blank_page).
Proof.
  split.
  - apply (proj1 (blank_input_sends_nothing
                    sample_JSON_stringify sample_toLocaleTimeString
                    {| numerator := 1; exponent := 1 |} 0 0
                    (set_chatInput (lit "  ") blank_page))).
    reflexivity.
  - apply (proj2 (blank_input_sends_nothing
                    sample_JSON_stringify sample_toLocaleTimeString
                    {| numerator := 1; exponent := 1 |} 0 0
                    (set_codeInput [LF] blank_page))).
    reflexivity.
Defined.

(** The message [pasteResultToChat] builds puts a newline between the fixed
    code and the closing fence; the code segment cut from it keeps that
    newline. *)
Lemma pasteResultToChat_segments :
  let p := set_fixedCodeEl (lit "x = 1")
             (set_resultSummary (lit "ok") blank_page) in
  map (fun b => map content (wrap_children b))
      (chatLog (pasteResultToChat sample_toLocaleTimeString 0 p))
  = [[InnerHTML (lit "<span>AI</span><span class=" ++ DQ ++ lit "pill" ++ DQ
                 ++ lit ">0</span>");
      InnerHTML ([0xCF54; 0xB4DC]%N ++ lit " " ++ [0xAC80; 0xC0AC]%N
                 ++ lit " " ++ [0xACB0; 0xACFC]%N ++ lit ":" ++ [LF]
                 ++ lit "ok" ++ [LF; LF] ++ lit "fixed_code:" ++ [LF]);
      TextContent (lit "x = 1" ++ [LF])]].
Proof.
  vm_compute. reflexivity.
Qed.

(** ** The further properties at concrete inputs *)

Lemma escapeHtml_injective_witness :
  escapeHtml (lit "a<b") = escapeHtml (lit "a<b") /\ lit "a<b" = lit "a<b".
Proof.
  split; [reflexivity|].
  apply (escapeHtml_injective (lit "a<b") (lit "a<b")). reflexivity.
Defined.

Lemma segment_without_fence_witness :
  occurs FENCE (lit "  ") = false
  /\ segment (lit "  ") = [ProseSegment (lit "  ")].
Proof.
  split; [reflexivity|].
  apply (segment_without_fence (lit "  ")). reflexivity.
Defined.

Lemma segment_payload_fence_free_witness :
  occurs FENCE
    (segment_payload (CodeSegment (lit "`` b"))) = false.
Proof.
  apply (segment_payload_fence_free
           (lit "a" ++ FENCE ++ lit "`` b" ++ FENCE ++ lit "c")
           (CodeSegment (lit "`` b"))).
  vm_compute. right. left. reflexivity.
Defined.

Lemma segment_with_fence_shape_witness :
  strip_leading_newlines (lit "b") = lit "b".
Proof.
  apply (segment_with_fence_shape
           (lit " " ++ FENCE ++ [LF; LF] ++ lit "b" ++ FENCE ++ lit "c")
           (CodeSegment (lit "b"))).
  - reflexivity.
  - vm_compute. left. reflexivity.
Defined.

Lemma code_body_single_word_witness :
  code_body (lit "foo") = []
  /\ segment (FENCE ++ lit "foo" ++ FENCE) = [CodeSegment []].
Proof.
  apply (code_body_single_word (lit "foo")); reflexivity.
Defined.

Lemma loadSessionId_restores_witness :
  let rnd := {| numerator := 0x12345678; exponent := 32 |} in
  let p := set_sessionIdInput (lit " team-7 ") blank_page in
  let q := set_localStorage (localStorage (snd (getSessionId rnd p)))
                            blank_page in
  sessionIdInput (loadSessionId rnd q) = lit "team-7".
Proof.
  intros rnd p q.
  apply (loadSessionId_restores rnd rnd p q). reflexivity.
Defined.

Lemma stored_id_stays_ok_witness :
  stored_id_ok
    (localStorage
       (run sample_toLowerCase sample_JSON_parse sample_JSON_stringify
            sample_toLocaleTimeString sample_TypeError_message
            [EditSessionId (lit " team-7 "); TypeCode (lit "x = 1");
             ClickCheck {| numerator := 1; exponent := 1 |}]
            blank_page)).
Proof.
  apply (stored_id_stays_ok sample_toLowerCase sample_JSON_parse
           sample_JSON_stringify sample_toLocaleTimeString
           sample_TypeError_message).
  exact I.
Defined.

Lemma other_keys_untouched_witness :
  getItem (lit "theme")
    (localStorage
       (run sample_toLowerCase sample_JSON_parse sample_JSON_stringify
            sample_toLocaleTimeString sample_TypeError_message
            [EditSessionId (lit " team-7 ")]
            (set_localStorage [(lit "theme", lit "dark")] blank_page)))
  = Some (lit "dark").
Proof.
  apply (other_keys_untouched sample_toLowerCase sample_JSON_parse
           sample_JSON_stringify sample_toLocaleTimeString
           sample_TypeError_message
           [EditSessionId (lit " team-7 ")]
           (set_localStorage [(lit "theme", lit "dark")] blank_page)
           (lit "theme")).
  discriminate.
Defined.

Lemma sendChat_sends_witness :
  let rnd := {| numerator := 0x12345678; exponent := 32 |} in
  let p := set_chatInput (lit " hi ") blank_page in
  requests (sendChat sample_JSON_stringify sample_toLocaleTimeString
                     rnd 0 7 p)
  = [postJson_request sample_JSON_stringify (lit "/agent")
       (JObj [(lit "session_id", JStr (lit "demo-12345678"));
              (lit "input", JStr (lit " hi "));
              (lit "debug", JBool false)])].
Proof.
  intros rnd p.
  apply (proj1 (sendChat_sends sample_JSON_stringify
                  sample_toLocaleTimeString rnd 0 7 p eq_refl)).
Defined.

Lemma runCheck_sends_witness :
  let rnd := {| numerator := 0x12345678; exponent := 32 |} in
  let p := set_codeInput (lit "x = 1") blank_page in
  requests (runCheck sample_JSON_stringify rnd p)
  = [postJson_request sample_JSON_stringify (lit "/check")
       (JObj [(lit "session_id", JStr (lit "demo-12345678"));
              (lit "language", JStr (lit "python"));
              (lit "code", JStr (lit "x = 1"));
              (lit "auto_fix", JBool false);
              (lit "include_diff", JBool false)])].
Proof.
  intros rnd p.
  apply (proj1 (runCheck_sends sample_JSON_stringify rnd p eq_refl)).
Defined.

Lemma sendChat_settled_reply_witness :
  sendChat_settled (fun _ => Some (JObj [(lit "output", JStr (lit "done"))]))
                   sample_JSON_stringify sample_toLocaleTimeString
                   sample_TypeError_message
                   (Responded 200 (lit "{...}")) 0 blank_page
  = appendBubble sample_toLocaleTimeString (lit "assistant") (lit "done")
                 None 0 blank_page.
Proof.
  apply (proj1 (sendChat_settled_reply
                  (fun _ => Some (JObj [(lit "output", JStr (lit "done"))]))
                  sample_JSON_stringify sample_toLocaleTimeString
                  sample_TypeError_message
                  200 (lit "{...}") 0 blank_page eq_refl)
               (JObj [(lit "output", JStr (lit "done"))]) (lit "done"));
    first [reflexivity | discriminate].
Defined.

Lemma vio_box_ok_iff_witness :
  exists box,
    vio_box sample_toLowerCase sample_TypeError_message
            (JObj [(lit "rule_id", JStr (lit "PY-1"));
                   (lit "start_line", JInt 3);
                   (lit "end_line", JInt 5)]) = inr box.
Proof.
  apply (proj2 (vio_box_ok_iff sample_toLowerCase sample_TypeError_message
                  (JObj [(lit "rule_id", JStr (lit "PY-1"));
                         (lit "start_line", JInt 3);
                         (lit "end_line", JInt 5)]))).
  reflexivity.
Defined.

(** A line number that is an object with a [toString] entry of its own
    cannot be written out: the box is not built. *)
Lemma vio_box_unprintable_line :
  vio_box sample_toLowerCase sample_TypeError_message
          (JObj [(lit "start_line", JObj [(lit "toString", JInt 1)])])
  = inl (TypeError sample_TypeError_message (lit "line")).
Proof.
  vm_compute. reflexivity.
Qed.

Lemma renderCheckResult_boxes_witness :
  length
    (violationsEl
       (fst (renderCheckResult sample_toLowerCase sample_TypeError_message
               (JObj [(lit "violations",
                       JArr [JObj [(lit "rule_id", JStr (lit "PY-1"))];
                             JObj []])])
               blank_page)))
  = 2.
Proof.
  apply (proj2 (proj2
           (renderCheckResult_boxes sample_toLowerCase
              sample_TypeError_message
              (JObj [(lit "violations",
                      JArr [JObj [(lit "rule_id", JStr (lit "PY-1"))];
                            JObj []])])
              [JObj [(lit "rule_id", JStr (lit "PY-1"))]; JObj []]
              blank_page eq_refl eq_refl eq_refl
              ltac:(discriminate)
              ltac:(repeat constructor)))).
Defined.

Lemma renderCheckResult_not_a_list_witness :
  violationsEl
    (fst (renderCheckResult sample_toLowerCase sample_TypeError_message
            (JObj [(lit "violations", JStr (lit "not-a-list"))])
            blank_page))
  = [{| tagName := lit "div"; className := lit "muted";
        content := TextContent NO_VIOLATIONS |}].
Proof.
  apply (proj2
           (renderCheckResult_not_a_list sample_toLowerCase
              sample_TypeError_message
              (JObj [(lit "violations", JStr (lit "not-a-list"))])
              blank_page eq_refl eq_refl
              ltac:(intros items; discriminate))).
Defined.

Lemma renderCheckResult_stops_at_bad_entry_witness :
  let result :=
    JObj [(lit "violations",
           JArr [JObj [];
                 JObj [(lit "start_line", JObj [(lit "toString", JInt 1)])];
                 JObj []])] in
  exists err,
    vio_box sample_toLowerCase sample_TypeError_message
            (JObj [(lit "start_line", JObj [(lit "toString", JInt 1)])])
    = inl err
    /\ snd (renderCheckResult sample_toLowerCase sample_TypeError_message
                              result blank_page) = Some err
    /\ Forall2 (fun v box =>
                  vio_box sample_toLowerCase sample_TypeError_message v
                  = inr box)
               [JObj []]
               (violationsEl
                  (fst (renderCheckResult sample_toLowerCase
                          sample_TypeError_message result blank_page)))
    /\ resultSummary
         (runCheck_settled sample_toLowerCase (fun _ => Some result)
                           sample_TypeError_message
                           (Responded 200 (lit "{...}")) blank_page)
       = error_prefix ++ String_of_error err
    /\ violationsEl
         (runCheck_settled sample_toLowerCase (fun _ => Some result)
                           sample_TypeError_message
                           (Responded 200 (lit "{...}")) blank_page)
       = violationsEl
           (fst (renderCheckResult sample_toLowerCase
                   sample_TypeError_message result blank_page)).
Proof.
  intros result.
  apply (renderCheckResult_stops_at_bad_entry
           sample_toLowerCase (fun _ => Some result) sample_TypeError_message
           result [JObj []]
           (JObj [(lit "start_line", JObj [(lit "toString", JInt 1)])])
           [JObj []]
           200 (lit "{...}") blank_page);
    first [reflexivity | repeat constructor].
Defined.

Lemma renderCheckResult_verbatim_witness :
  let result :=
    JObj [(lit "summary", JStr (lit "2 issues"));
          (lit "fixed_code", JStr (lit "x = 1"))] in
  let bad := JObj [(lit "summary", JObj [(lit "toString", JInt 1)])] in
  resultSummary
    (fst (renderCheckResult sample_toLowerCase sample_TypeError_message
            result blank_page))
  = lit "2 issues"
  /\ fixedCodeEl
       (fst (renderCheckResult sample_toLowerCase sample_TypeError_message
               result blank_page))
     = lit "x = 1"
  /\ exists err,
       renderCheckResult sample_toLowerCase sample_TypeError_message
                         bad blank_page
       = (blank_page, Some err).
Proof.
  intros result bad. split; [|split].
  - apply (proj1 (renderCheckResult_verbatim sample_toLowerCase
                    sample_TypeError_message result blank_page));
      first [reflexivity | discriminate].
  - apply (proj1 (proj2 (renderCheckResult_verbatim sample_toLowerCase
                           sample_TypeError_message result blank_page)));
      reflexivity.
  - apply (proj1 (proj2 (proj2 (proj2
             (renderCheckResult_verbatim sample_toLowerCase
                sample_TypeError_message bad blank_page)))));
      reflexivity.
Defined.

Lemma init_session_witness :
  let rnd := {| numerator := 0x12345678; exponent := 32 |} in
  let rnd' := {| numerator := 1; exponent := 1 |} in
  let p1 := init sample_toLocaleTimeString rnd 0 blank_page in
  sessionIdInput p1 = lit "demo-12345678"
  /\ fst (getSessionId rnd' p1) = sessionIdInput p1
  /\ getItem STORAGE_KEY (localStorage (snd (getSessionId rnd' p1)))
     = Some (sessionIdInput p1).
Proof.
  intros rnd rnd' p1.
  apply (proj2 (proj2 (proj2 (proj2
           (init_session sample_toLocaleTimeString rnd rnd' 0 blank_page))))).
  reflexivity.
Defined.

Lemma pasteResultToChat_shows_witness :
  let p := set_fixedCodeEl (lit "x = 1")
             (set_resultSummary (lit "ok") blank_page) in
  exists meta,
    chatLog (pasteResultToChat sample_toLocaleTimeString 0 p)
    = [{| wrap_className := lit "bubble assistant";
          wrap_children :=
            meta
            :: map render_segment
                 [ProseSegment
                    ((PASTE_HEADER ++ lit "ok" ++ [LF])
                     ++ [LF] ++ lit "fixed_code:" ++ [LF]);
                  CodeSegment (lit "x = 1" ++ [LF])] |}]
    /\ tabChat_active (tabs (pasteResultToChat sample_toLocaleTimeString 0 p))
       = true
    /\ chatPanel_hidden
         (tabs (pasteResultToChat sample_toLocaleTimeString 0 p)) = false
    /\ focus (pasteResultToChat sample_toLocaleTimeString 0 p)
       = FocusChatInput.
Proof.
  intros p.
  apply (pasteResultToChat_shows sample_toLocaleTimeString 0 p);
    reflexivity.
Defined.

Lemma failure_is_shown_witness :
  runCheck_settled sample_toLowerCase sample_JSON_parse
                   sample_TypeError_message
                   (Responded 500 (lit "boom")) blank_page
  = set_resultSummary (error_prefix ++ lit "boom") blank_page.
Proof.
  apply (proj1 (failure_is_shown sample_toLowerCase sample_JSON_parse
                  sample_JSON_stringify sample_toLocaleTimeString
                  sample_TypeError_message 500 (lit "boom") 0 blank_page
                  eq_refl)).
Defined.

Lemma getSessionId_demo_id_witness :
  is_demo_id
    (fst (getSessionId {| numerator := 0x12345678; exponent := 32 |}
                       blank_page)) = true.
Proof.
  apply (getSessionId_demo_id {| numerator := 0x12345678; exponent := 32 |}
                              blank_page).
  - reflexivity.
  - vm_compute. repeat constructor.
  - reflexivity.
Defined.
